(** * Globant_final.py: the classification and normalisation engine

    A shallow embedding of the column expressions of [Globant_final.py]
    (a PySpark batch job) and of its Python helpers, followed by the
    properties of the engine.

    Conventions of the embedding.
    - A string is a [string] whose characters are the code points
      U+0000..U+00FF; the regular expressions of the job only name ASCII
      classes, the white space class [\s], and the line terminators that
      [.] refuses, of which LF, CR and NEL fall in that range.
    - A nullable column is an [option]; [None] is SQL NULL.
    - The session of line 8 is built without any configuration, so
      [spark.sql.ansi.enabled] keeps its Spark 3 default: an invalid cast
      and a division by zero produce NULL.  With the ANSI mode on the cast
      of line 95 would stop the job on every token without a digit.
    - A DataFrame is the list of its rows. *)

From Stdlib Require Import ZArith QArith Qround Lqa Ascii String List Bool Lia.
From Stdlib Require Import SpecFloat.
From stdpp Require Import gmap strings.

Import ListNotations.
Local Open Scope string_scope.
Local Open Scope Z_scope.

(** ** Characters *)

Definition code (c : ascii) : N := N_of_ascii c.

Definition in_range (lo hi : N) (c : ascii) : bool :=
  ((lo <=? code c) && (code c <=? hi))%N.

Definition is_digit (c : ascii) : bool := in_range 48 57 c.
Definition is_upper (c : ascii) : bool := in_range 65 90 c.
Definition is_lower (c : ascii) : bool := in_range 97 122 c.
Definition is_alpha (c : ascii) : bool := is_upper c || is_lower c.
Definition is_alnum (c : ascii) : bool := is_alpha c || is_digit c.

(** Java's [\s] without UNICODE_CHARACTER_CLASS: [ \t\n\x0B\f\r]. *)
Definition is_space (c : ascii) : bool :=
  in_range 9 13 c || (code c =? 32)%N.

(** The line terminators that [.] does not match and before which [$]
    may stand. *)
Definition is_line_terminator (c : ascii) : bool :=
  ((code c =? 10) || (code c =? 13) || (code c =? 133))%N.

(** [(?i)] folds the case of ASCII letters only. *)
Definition to_lower_ascii (c : ascii) : ascii :=
  if is_upper c then ascii_of_N (code c + 32) else c.

Definition to_upper_ascii (c : ascii) : ascii :=
  if is_lower c then ascii_of_N (code c - 32) else c.

Definition eqb_ci (a b : ascii) : bool :=
  Ascii.eqb (to_lower_ascii a) (to_lower_ascii b).

(** A range [[lo-hi]] under [(?i)]: the character, its upper case or its
    lower case lies in the range. *)
Definition in_range_ci (lo hi : N) (c : ascii) : bool :=
  in_range lo hi c || in_range lo hi (to_upper_ascii c)
  || in_range lo hi (to_lower_ascii c).

(** A character class written as the list of its members, as in
    [[SMLXLXXL]], under [(?i)]. *)
Definition in_class_ci (members : string) (c : ascii) : bool :=
  existsb (eqb_ci c) (list_ascii_of_string members).

(** ** Outcome of a column expression

    Evaluating an expression on a row yields a value or stops the job. *)

Inductive exn : Type :=
| DivideByZero
| CastInvalidInput
| AttributeError.

Inductive result (A : Type) : Type :=
| Ok (v : A)
| Raise (e : exn).

Arguments Ok {A} v.
Arguments Raise {A} e.

#[export] Instance result_ret : MRet result := fun A v => Ok v.

#[export] Instance result_bind : MBind result := fun A B k m =>
  match m with
  | Ok v => k v
  | Raise e => Raise e
  end.

(** Line 8: [SparkSession.builder.appName(..).getOrCreate()] sets no
    option, [spark.sql.ansi.enabled] is at its default. *)
Definition spark_sql_ansi_enabled : bool := false.

(** ** Regular expression primitives, one per pattern shape of the job *)

(** [regexp_replace(s, cls+, '')] and [regexp_replace(s, cls, '')]:
    every character of the class disappears. *)
Fixpoint remove_class (p : ascii -> bool) (s : string) : string :=
  match s with
  | EmptyString => EmptyString
  | String c r => if p c then remove_class p r else String c (remove_class p r)
  end.

(** Greedy [cls*] at the head of the input: the run and the rest. *)
Fixpoint take_class (p : ascii -> bool) (s : string) : string :=
  match s with
  | EmptyString => EmptyString
  | String c r => if p c then String c (take_class p r) else EmptyString
  end.

Fixpoint drop_class (p : ascii -> bool) (s : string) : string :=
  match s with
  | EmptyString => EmptyString
  | String c r => if p c then drop_class p r else s
  end.

Fixpoint all_class (p : ascii -> bool) (s : string) : bool :=
  match s with
  | EmptyString => true
  | String c r => p c && all_class p r
  end.

(** [$] without MULTILINE: the end of the input, or just before a final
    line terminator. *)
Definition at_dollar (rest : string) : bool :=
  match rest with
  | EmptyString => true
  | String c EmptyString => is_line_terminator c
  | String c (String d EmptyString) => (code c =? 13)%N && (code d =? 10)%N
  | _ => false
  end.

(** [cls+$] tried at the head of the input. *)
Definition class_plus_dollar (p : ascii -> bool) (s : string) : bool :=
  match take_class p s with
  | EmptyString => false
  | _ => at_dollar (drop_class p s)
  end.

(** [rlike("^cls+$")]. *)
Definition rlike_anchored_class (p : ascii -> bool) (s : string) : bool :=
  class_plus_dollar p s.

(** [\(.*?\)] tried just after an opening parenthesis: the lazy [.*?]
    stops at the first closing parenthesis and fails on a line terminator
    or at the end of the input. *)
Fixpoint closes (s : string) : bool :=
  match s with
  | EmptyString => false
  | String c r =>
      if Ascii.eqb c ")" then true
      else if is_line_terminator c then false
      else closes r
  end.

(** [regexp_replace(s, "\(.*?\)", '')], scanning left to right; [inside]
    holds while a match that is known to close is being skipped. *)
Fixpoint strip_parens (inside : bool) (s : string) : string :=
  match s with
  | EmptyString => EmptyString
  | String c r =>
      if inside then
        if Ascii.eqb c ")" then strip_parens false r else strip_parens true r
      else if Ascii.eqb c "(" && closes r then strip_parens true r
      else String c (strip_parens false r)
  end.

(** Spark's [trim]: the space character U+0020 at both ends. *)
Definition is_blank (c : ascii) : bool := (code c =? 32)%N.

Fixpoint rtrim (s : string) : string :=
  match s with
  | EmptyString => EmptyString
  | String c r =>
      match rtrim r with
      | EmptyString => if is_blank c then EmptyString else String c EmptyString
      | r' => String c r'
      end
  end.

Definition trim (s : string) : string := rtrim (drop_class is_blank s).

(** [regexp_extract(s, "(\d+)", 1)]: the first run of digits, wherever it
    starts; the empty string when there is none. *)
Definition extract_digits (s : string) : string :=
  take_class is_digit (drop_class (fun c => negb (is_digit c)) s).

(** [regexp_extract(s, "([a-zA-Z]+)$", 1)]: the leftmost position from
    which letters run up to [$]. *)
Fixpoint extract_trailing_letters (s : string) : string :=
  match s with
  | EmptyString => EmptyString
  | String c r =>
      if class_plus_dollar is_alpha s then take_class is_alpha s
      else extract_trailing_letters r
  end.

(** ** Size Normalizer (lines 87-99) *)

(** Lines 90-92, the three rewrites of the [size] column. *)
Definition clean_size (s : string) : string :=
  let s1 := trim (remove_class is_space s) in
  let s2 := strip_parens false s1 in
  remove_class (fun c => negb (is_alnum c)) s2.

(** Value of a run of decimal digits. *)
Definition digit_value (c : ascii) : Z := Z.of_N (code c) - 48.

Fixpoint decimal_acc (acc : Z) (s : string) : Z :=
  match s with
  | EmptyString => acc
  | String c r => decimal_acc (10 * acc + digit_value c) r
  end.

Definition int_max : Z := 2147483647.

(** [cast(IntegerType())] of a string of digits.  The empty string and a
    value beyond the 32-bit range are invalid input: NULL, or an error of
    the job in ANSI mode. *)
Definition cast_int (ansi : bool) (digits : string) : result (option Z) :=
  let invalid := if ansi then Raise CastInvalidInput else Ok None in
  match digits with
  | EmptyString => invalid
  | _ => let v := decimal_acc 0 digits in
         if v <=? int_max then Ok (Some v) else invalid
  end.

(** Line 95. *)
Definition size_number_of (size : string) : result (option Z) :=
  cast_int spark_sql_ansi_enabled (extract_digits size).

(** Line 96. *)
Definition size_letter_of (size : string) : string :=
  extract_trailing_letters size.

(** Line 99: [array_contains] of the [available_size] array as
    [ensure_array_columns] left it and of the cleaned [size]; NULL, hence
    0, on a NULL array. *)
Definition is_available_of (available_size : option (list string))
    (size : string) : Z :=
  match available_size with
  | Some l => if existsb (String.eqb size) l then 1 else 0
  | None => 0
  end.

(** ** Size Classifier (lines 101-118) *)

(** Three-valued column expressions. *)
Definition between (x : option Z) (lo hi : Z) : option bool :=
  match x with
  | Some v => Some ((lo <=? v) && (v <=? hi))
  | None => None
  end.

Definition when {A} (cond : option bool) (v : A) : option A :=
  match cond with
  | Some true => Some v
  | _ => None
  end.

Fixpoint coalesce {A} (cols : list (option A)) (default : A) : A :=
  match cols with
  | [] => default
  | Some v :: _ => v
  | None :: rest => coalesce rest default
  end.

Definition size_conditions (size : string) (size_number : option Z)
  : list (option bool * string) :=
  [ (between size_number 30 32, "Small");
    (between size_number 34 36, "Medium");
    (between size_number 38 40, "Large");
    (between size_number 42 46, "Extra Large");
    (Some (rlike_anchored_class (in_class_ci "SMLXLXXL") size), "Not Bras");
    (Some (rlike_anchored_class (in_class_ci "6789") size), "Not Bras");
    (Some (rlike_anchored_class (in_range_ci 65 90) size), "Not Bras") ].

Definition size_group_of (size : string) (size_number : option Z) : string :=
  coalesce (map (fun '(cond, group) => when cond group)
              (size_conditions size size_number))
    "Unknown".

(** ** Rows *)

(** A catalog entry; [S] is the type of the two size columns, a string as
    loaded and an array after [ensure_array_columns]. *)
Record Product (S : Type) : Type := {
  product_name : option string;
  brand_name : option string;
  retailer : option string;
  total_sizes : option S;
  available_size : option S
}.

Arguments product_name {S} _.
Arguments brand_name {S} _.
Arguments retailer {S} _.
Arguments total_sizes {S} _.
Arguments available_size {S} _.

(** [split(col, ",\\s*")]: at every comma, which also takes the white
    space that follows it; empty pieces are kept.  [after_comma] holds
    while that white space is being skipped.  The result is the piece
    under way and the pieces after it. *)
Fixpoint split_aux (after_comma : bool) (s : string) : string * list string :=
  match s with
  | EmptyString => (EmptyString, [])
  | String c r =>
      if after_comma && is_space c then split_aux true r
      else if Ascii.eqb c "," then
        (EmptyString, let '(t, ts) := split_aux true r in t :: ts)
      else let '(t, ts) := split_aux false r in (String c t, ts)
  end.

Definition split (s : string) : list string :=
  let '(t, ts) := split_aux false s in t :: ts.

(** Lines 74-77. *)
Definition ensure_array_columns (p : Product string) : Product (list string) :=
  {| product_name := product_name p;
     brand_name := brand_name p;
     retailer := retailer p;
     total_sizes := option_map split (total_sizes p);
     available_size := option_map split (available_size p) |}.

(** A row of [normalize_and_explode_sizes]: the columns of the product and
    the five it adds. *)
Record SizeRecord : Type := {
  product : Product (list string);
  size : string;
  size_number : option Z;
  size_letter : string;
  is_available : Z;
  size_group : string
}.

(** [explode]: one row per element, none for a NULL or empty array. *)
Definition explode {A} (arr : option (list A)) : list A :=
  match arr with
  | Some l => l
  | None => []
  end.

(** Lines 87-120, on the rows that one product explodes into. *)
Definition normalize_size (p : Product (list string)) (raw : string)
  : result SizeRecord :=
  let size := clean_size raw in
  n ← size_number_of size;
  mret {| product := p;
          size := size;
          size_number := n;
          size_letter := size_letter_of size;
          is_available := is_available_of (available_size p) size;
          size_group := size_group_of size n |}.

Definition normalize_and_explode_sizes (df : list (Product (list string)))
  : result (list SizeRecord) :=
  rows ← mapM (fun p => mapM (normalize_size p) (explode (total_sizes p))) df;
  mret (List.concat rows).

(** ** Metrics Calculator (lines 123-134) *)

(** [F.size]: the legacy value -1 on a NULL array. *)
Definition sql_size {A} (arr : option (list A)) : Z :=
  match arr with
  | Some l => Z.of_nat (length l)
  | None => -1
  end.

(** [l / r] on two integer columns: NULL on a zero divisor, or an error of
    the job in ANSI mode.  The quotient of two 32-bit counts is kept
    exact: its distance to a decimal tie of [round] is either zero or far
    above the precision of a double. *)
Definition divide (ansi : bool) (l r : Z) : result (option Q) :=
  if r =? 0 then (if ansi then Raise DivideByZero else Ok None)
  else Ok (Some (inject_Z l / inject_Z r)%Q).

(** Rounding to the nearest integer, ties away from zero (HALF_UP). *)
Definition half_up (x : Q) : Z :=
  if Qle_bool 0 x then Qfloor (x + (1 # 2))%Q else - Qfloor (- x + (1 # 2))%Q.

(** [round(x, 2)], in hundredths. *)
Definition round2 (x : Q) : Z := half_up (x * 100)%Q.

(** Binary floating point.  [round_binary prec] is the nearest number
    with a significand of [prec] bits, ties to even; the exponent range is
    not modelled, every value met here is far inside it. *)
Definition Qlog2 (x : Q) : Z :=
  if Qle_bool 1 x then Z.log2 (Qfloor x) else - Z.log2_up (Qceiling (/ x)%Q).

Definition pow2 (e : Z) : Q :=
  if 0 <=? e then inject_Z (2 ^ e) else (/ inject_Z (2 ^ (- e)))%Q.

Definition round_half_even (x : Q) : Z :=
  let f := Qfloor x in
  match Qcompare (x - inject_Z f)%Q (1 # 2)%Q with
  | Lt => f
  | Gt => f + 1
  | Eq => if Z.even f then f else f + 1
  end.

Definition round_binary_pos (prec : Z) (x : Q) : Q :=
  let ulp := pow2 (Qlog2 x - (prec - 1)) in
  (inject_Z (round_half_even (x / ulp)) * ulp)%Q.

Definition round_binary (prec : Z) (x : Q) : Q :=
  Qred match Qcompare x 0%Q with
       | Eq => 0%Q
       | Gt => round_binary_pos prec x
       | Lt => (- round_binary_pos prec (- x))%Q
       end.

Definition to_double : Q -> Q := round_binary 53.
Definition to_float : Q -> Q := round_binary 24.

(** The same two conversions in the IEEE 754 specification of the
    Standard Library: the correctly rounded double [h / 100], and its
    rounding to single precision; the value of a finite result. *)
Definition ieee_double_of_hundredths (h : Z) : spec_float :=
  SFdiv 53 1024 (binary_normalize 53 1024 h 0 false)
    (binary_normalize 53 1024 100 0 false).

Definition ieee_single_of_double (f : spec_float) : spec_float :=
  match f with
  | S754_finite s m e =>
      binary_normalize 24 128 (if s then Z.neg m else Z.pos m) e false
  | _ => f
  end.

Definition ieee_value (f : spec_float) : option Q :=
  match f with
  | S754_zero _ => Some 0%Q
  | S754_finite s m e =>
      let v := (inject_Z (Z.pos m) * pow2 e)%Q in
      Some (Qred (if s then (- v)%Q else v))
  | _ => None
  end.

(** Comparison of a FloatType column with a double literal: the column
    is widened, which is exact. *)
Definition lt_lit (x : option Q) (lit : Q) : option bool :=
  option_map (fun v => negb (Qle_bool (to_double lit) v)) x.

Definition ge_lit (x : option Q) (lit : Q) : option bool :=
  option_map (fun v => Qle_bool (to_double lit) v) x.

Definition eq_lit (x lit : string) : option bool := Some (String.eqb x lit).

(** Kleene conjunction of two conditions. *)
Definition and3 (a b : option bool) : option bool :=
  match a, b with
  | Some false, _ | _, Some false => Some false
  | Some true, Some true => Some true
  | _, _ => None
  end.

(** [when(c1, v1).when(c2, v2)...otherwise(d)]. *)
Fixpoint case_when {A} (branches : list (option bool * A)) (otherwise : A) : A :=
  match branches with
  | [] => otherwise
  | (Some true, v) :: _ => v
  | _ :: rest => case_when rest otherwise
  end.

Record MetricsRecord : Type := {
  sized : SizeRecord;
  total_offered_items : Z;
  available_items : Z;
  availability_percentage : option Q;
  status : string;
  Warning_Sanction : string
}.

(** A number of hundredths as [round] returns it, a double, and as
    [cast(FloatType())] stores it. *)
Definition decimal2_as_float (hundredths : Z) : Q :=
  to_float (to_double (hundredths # 100)%Q).

(** Line 126. *)
Definition availability_percentage_of (available_items total_offered_items : Z)
  : result (option Q) :=
  q ← divide spark_sql_ansi_enabled available_items total_offered_items;
  mret (option_map (fun x => decimal2_as_float (round2 x)) q).

(** Lines 127-129. *)
Definition status_of (availability_percentage : option Q) : string :=
  case_when [ (lt_lit availability_percentage (3 # 10)%Q, "Sanction");
              (lt_lit availability_percentage (5 # 10)%Q, "Warning") ]
    "OK".

(** Lines 130-133. *)
Definition Warning_Sanction_of (size_group : string)
    (availability_percentage : option Q) : string :=
  case_when
    [ (and3 (and3 (eq_lit size_group "Extra Large")
                  (lt_lit availability_percentage (5 # 10)%Q))
            (ge_lit availability_percentage (3 # 10)%Q), "Warning");
      (and3 (eq_lit size_group "Extra Large")
            (lt_lit availability_percentage (3 # 10)%Q), "Sanction") ]
    "".

Definition calculate_initial_metrics_row (r : SizeRecord) : result MetricsRecord :=
  let total := sql_size (total_sizes (product r)) in
  let available := sql_size (available_size (product r)) in
  ap ← availability_percentage_of available total;
  mret {| sized := r;
          total_offered_items := total;
          available_items := available;
          availability_percentage := ap;
          status := status_of ap;
          Warning_Sanction := Warning_Sanction_of (size_group r) ap |}.

Definition calculate_initial_metrics (df : list SizeRecord)
  : result (list MetricsRecord) :=
  mapM calculate_initial_metrics_row df.

(** ** Brand Canonicalizer (lines 11-54 and 250-254) *)

(** [str.lower()] and Spark's [lower] on the characters of this range:
    the ASCII capitals and the capitals U+00C0..U+00DE, the sign U+00D7
    apart. *)
Definition lower_char (c : ascii) : ascii :=
  if is_upper c || (in_range 192 222 c && negb (code c =? 215)%N)
  then ascii_of_N (code c + 32) else c.

Fixpoint lower (s : string) : string :=
  match s with
  | EmptyString => EmptyString
  | String c r => String (lower_char c) (lower r)
  end.

Definition brand_mapping : gmap string (string * string) :=
  list_to_map
    [ ("victoria's secret", ("Victoria's Secret", ""));
      ("victoria's secret pink", ("Victoria's Secret", "Pink"));
      ("us topshop", ("Topshop", "Us Top Shop"));
      ("calvin klein", ("Calvin Klein", ""));
      ("hanky panky", ("Hanky Panky", ""));
      ("b.tempt'd by wacoal", ("Wacoal", "b.tempt'd"));
      ("wacoal", ("Wacoal", ""));
      ("vanity fair", ("Vanity Fair", ""));
      ("calvin klein modern cotton", ("Calvin Klein", "Modern Cotton"));
      ("calvin klein performance", ("Calvin Klein", "Performance"));
      ("b.tempt'd", ("Wacoal", "b.tempt'd"));
      ("nordstrom lingerie", ("Nordstrom", ""));
      ("hankypanky", ("Hanky Panky", ""));
      ("calvin-klein", ("Calvin Klein", ""));
      ("b-temptd", ("Wacoal", "b-temptd"));
      ("hanky-panky", ("Hanky Panky", ""));
      ("victorias-secret", ("Victoria's Secret", ""));
      ("s", ("Wacoal", ""));
      ("ref=w_bl_sl_l_b_ap_web_2603426011?ie=utf8&node=2603426011&field-lbr_brands_browse-bin=wacoal",
        ("Wacoal", ""));
      ("ref=w_bl_sl_l_ap_ap_web_2586685011?ie=utf8&node=2586685011&field-lbr_brands_browse-bin=calvin+klein",
        ("Calvin Klein", ""));
      ("ref=w_bl_sl_l_b_ap_web_2586451011?ie=utf8&node=2586451011&field-lbr_brands_browse-bin=b.tempt%27d",
        ("Wacoal", "b-temptd"));
      ("lucky-brand", ("Lucky Brand", "Lucky-Brand"));
      ("aerie", ("American Eagle", "Aerie"));
      ("aeo", ("American Eagle", "Aeo")) ].

(** Lines 39-45.  The UDF receives [None] for a NULL brand, and
    [None.lower()] raises. *)
Definition map_brand (brand : option string) : result (string * string) :=
  match brand with
  | None => Raise AttributeError
  | Some brand =>
      let brand := lower brand in
      match brand_mapping !! brand with
      | Some mapped_brand => Ok (mapped_brand.1, mapped_brand.2)
      | None => Ok (brand, "")
      end
  end.

(** Lines 250-253: the pair of columns [brand_name], [sub_brand_name]. *)
Definition brand_columns (brand_name : option string) : result (string * string) :=
  map_brand (option_map (fun b => lower (trim b)) brand_name).

(** ** Category Classifier (lines 141-162) *)

(** The two pattern shapes of [category_patterns]: [(?i)\b(w1|w2|..)\b]
    and [.*]. *)
Inductive pattern : Type :=
| Words (alternatives : list string)
| Anything.

(** [\b] on the JVMs that Spark 3 runs on: a word character is a letter,
    a digit or the underscore, the letters beyond ASCII included. *)
Definition is_letter (c : ascii) : bool :=
  is_alpha c || (code c =? 170)%N || (code c =? 181)%N || (code c =? 186)%N
  || in_range 192 214 c || in_range 216 246 c || in_range 248 255 c.

Definition is_word_char (c : ascii) : bool :=
  is_letter c || is_digit c || (code c =? 95)%N.

Definition word_before (prev : option ascii) : bool :=
  match prev with
  | Some c => is_word_char c
  | None => false
  end.

Definition word_at (rest : string) : bool :=
  match rest with
  | String c _ => is_word_char c
  | EmptyString => false
  end.

Definition boundary (prev : option ascii) (rest : string) : bool :=
  xorb (word_before prev) (word_at rest).

(** A literal of the pattern against the head of the input, under
    [(?i)]: the last character read and the rest of the input. *)
Fixpoint match_literal (lit : string) (prev : option ascii) (s : string)
  : option (option ascii * string) :=
  match lit with
  | EmptyString => Some (prev, s)
  | String p lit' =>
      match s with
      | String c r => if eqb_ci p c then match_literal lit' (Some c) r else None
      | EmptyString => None
      end
  end.

Definition match_alternative (prev : option ascii) (s : string) (alt : string) : bool :=
  match match_literal alt prev s with
  | Some (prev', rest) => boundary prev' rest
  | None => false
  end.

(** [\b(w1|w2|..)\b] tried at one position. *)
Definition match_words_at (alts : list string) (prev : option ascii) (s : string) : bool :=
  boundary prev s && existsb (match_alternative prev s) alts.

(** The search of [rlike]: every position, from the left. *)
Fixpoint find_words (alts : list string) (prev : option ascii) (s : string) : bool :=
  match_words_at alts prev s ||
  match s with
  | EmptyString => false
  | String c r => find_words alts (Some c) r
  end.

Definition rlike (p : pattern) (s : string) : bool :=
  match p with
  | Words alts => find_words alts None s
  | Anything => true
  end.

Definition category_patterns : list (pattern * string) :=
  [ (Words ["bra"; "push-up"; "plunge"; "demi"; "balconette"; "multi-way";
            "Embellished Underwire Bra"; "bralette"], "Bras");
    (Words ["bandeau"; "triangle bralette"; "bralette"], "Tops");
    (Words ["hipster"; "cheeky"; "cheekster"; "boyshort"; "thong"; "hiphugger";
            "boybrief"; "v-string"; "shortie"; "brief"; "panty"; "hipkini";
            "cheekini"; "tanga"; "high cut brief"; "high cut briefs"], "Panties");
    (Words ["bikini"], "Bikinis");
    (Words ["vikini"; "v kini"], "Bikinis");
    (Words ["slip"; "chemise"; "babydoll"; "teddy"; "romper"; "camisole";
            "bodysuit"; "bustier"; "garter belt"], "Sleepwear and Lingerie");
    (Words ["legging"; "short"; "jogger"; "tank"; "top"; "hoodie"; "tee";
            "shirt"; "camisole"; "crop"; "sports bra"; "shorts"; "tank top"],
      "Tops Sport");
    (Anything, "Other") ].

Definition is_null {A} (x : option A) : option bool :=
  Some (match x with None => true | Some _ => false end).

(** Lines 157-160, one turn of the loop on the [category] column. *)
Definition category_step (product_name : option string)
    (category : option string) (rule : pattern * string) : option string :=
  case_when
    [ (and3 (is_null category) (option_map (rlike rule.1) product_name),
       Some rule.2) ]
    category.

(** Lines 156-160 on one row; [category] is the column on entry, NULL
    when lines 142-143 have just created it. *)
Definition assign_category_col (product_name category : option string)
  : option string :=
  fold_left (category_step product_name) category_patterns category.

Record EnrichedRecord : Type := {
  metrics : MetricsRecord;
  canonical_brand_name : string;
  sub_brand_name : string;
  category : option string
}.

(** Lines 250-257 on one row. *)
Definition enrich (m : MetricsRecord) : result EnrichedRecord :=
  let p := product (sized m) in
  brand_struct ← brand_columns (brand_name p);
  mret {| metrics := m;
          canonical_brand_name := brand_struct.1;
          sub_brand_name := brand_struct.2;
          category := assign_category_col (product_name p) None |}.

(** ** Exclusion Filter (lines 136-138 and 261-264) *)

Definition exclude_sizes : list string :=
  [ "xs"; "s"; "m"; "l"; "xl"; "xxl"; "xlarge"; "6"; "7"; "8"; "9"; "10";
    "2"; "4"; "12"; "a"; "b"; "c"; "d"; "dd"; "ddd"; "xsmall"; "14";
    "xxsmall"; "aaa"; "bc" ].

Definition not3 (a : option bool) : option bool := option_map negb a.

Definition eq_col (x : option string) (lit : string) : option bool :=
  option_map (fun v => String.eqb v lit) x.

Definition isin (x : string) (values : list string) : option bool :=
  Some (existsb (String.eqb x) values).

Definition retained (r : EnrichedRecord) : bool :=
  let s := size (sized (metrics r)) in
  match and3 (not3 (and3 (eq_col (category r) "Bras") (isin s exclude_sizes)))
             (not3 (and3 (eq_col (category r) "Bralette") (isin s exclude_sizes)))
  with
  | Some true => true
  | _ => false
  end.

(** ** Schema Assembler (lines 270-273) *)

(** [monotonically_increasing_id()]: the position of the row. *)
Fixpoint with_ids {A} (from : Z) (df : list A) : list (Z * A) :=
  match df with
  | [] => []
  | r :: rest => (from, r) :: with_ids (from + 1) rest
  end.

(** [Window.orderBy(key)]: a stable sort of the whole frame on the key. *)
Fixpoint insert_by_key {A} (x : Z * A) (sorted : list (Z * A)) : list (Z * A) :=
  match sorted with
  | [] => [x]
  | y :: rest => if x.1 <? y.1 then x :: sorted else y :: insert_by_key x rest
  end.

Definition order_by {A} (keyed : list (Z * A)) : list (Z * A) :=
  fold_right insert_by_key [] keyed.

(** [row_number().over(windowSpec)] as a new last column. *)
Fixpoint number_from {A} (n : Z) (rows : list A) : list (A * Z) :=
  match rows with
  | [] => []
  | r :: rest => (r, n) :: number_from (n + 1) rest
  end.

Definition with_row_number {A} (df : list A) : list (A * Z) :=
  number_from 1 (map snd (order_by (with_ids 0 df))).

Record KeyedRecord : Type := {
  enriched : EnrichedRecord;
  product_id : Z;
  retailer_id : Z;
  size_id : Z
}.

(** Lines 270-273: three [withColumn] calls, each with its own
    evaluation of the window. *)
Definition assign_keys (df : list EnrichedRecord) : list KeyedRecord :=
  map (fun '(r, p, t, s) =>
         {| enriched := r; product_id := p; retailer_id := t; size_id := s |})
    (with_row_number (with_row_number (with_row_number df))).

(** ** The job (lines 232-273) *)

#[export] Instance Product_eq_dec : EqDecision (Product string).
Proof. solve_decision. Defined.

(** [dropDuplicates()]. *)
Definition initial_data_clean (df : list (Product string)) : list (Product string) :=
  remove_dups df.

Definition process_data (df : list (Product string)) : result (list KeyedRecord) :=
  let df_no_duplicates := map ensure_array_columns (initial_data_clean df) in
  df_normalized ← normalize_and_explode_sizes df_no_duplicates;
  df_metrics ← calculate_initial_metrics df_normalized;
  df_normalized ← mapM enrich df_metrics;
  let df_filtered := List.filter retained df_normalized in
  mret (assign_keys df_filtered).

(** ** Review counts (lines 80-85) *)

(** [max_valid_value = 1e6]. *)
Definition max_valid_value : Q := 1000000.

(** [when(col > max_valid_value, None).otherwise(col).cast(FloatType())]
    on a numeric column: a NULL count fails the test and stays NULL. *)
Definition normalize_review_count_col (review_count : option Q) : option Q :=
  option_map to_float
    (case_when
       [ (option_map (fun v => negb (Qle_bool v max_valid_value)) review_count,
          None) ]
       review_count).

(** ** Subcategory Tagger (lines 165-201) *)

Definition subcategory_patterns : list (pattern * string) :=
  [ (Words ["seamless"], "Seamless");
    (Words ["lace"], "Lace");
    (Words ["mesh"], "Mesh");
    (Words ["crochet"], "Crochet");
    (Words ["embroidered"; "embroidery"], "Embroidered");
    (Words ["ruched"], "Ruched");
    (Words ["high-waist"; "high waist"], "High-Waist");
    (Words ["low-rise"; "low rise"], "Low-Rise");
    (Words ["mid-rise"; "mid rise"], "Mid-Rise");
    (Words ["adjustable"], "Adjustable");
    (Words ["push-up"; "push up"], "Push-Up");
    (Words ["padded"], "Padded");
    (Words ["unlined"], "Unlined");
    (Words ["wireless"], "Wireless");
    (Words ["nylon"], "Nylon");
    (Words ["spandex"], "Spandex");
    (Words ["cotton"], "Cotton");
    (Words ["satin"], "Satin");
    (Words ["polyamide"], "Polyamide");
    (Words ["elastane"], "Elastane") ].

(** Kleene disjunction of two conditions. *)
Definition or3 (a b : option bool) : option bool :=
  match a, b with
  | Some true, _ | _, Some true => Some true
  | Some false, Some false => Some false
  | _, _ => None
  end.

(** Lines 193-200, one turn of the loop on the [subcategory] column. *)
Definition subcategory_step (product_name description : option string)
    (subcategory : option string) (rule : pattern * string) : option string :=
  case_when
    [ (and3 (is_null subcategory)
            (or3 (option_map (rlike rule.1) product_name)
                 (option_map (rlike rule.1) description)),
       Some rule.2) ]
    subcategory.

(** Lines 192-200 on one row; [subcategory] is the column on entry, NULL
    when lines 189-190 have just created it. *)
Definition assign_subcategories_col
    (product_name description subcategory : option string) : option string :=
  fold_left (subcategory_step product_name description) subcategory_patterns
    subcategory.

(** ** Color Classifier (lines 204-226) *)

(** The dictionary [colors], in the order of its literal, which is the
    order in which [colors.items()] yields it. *)
Definition colors : list (string * list string) :=
  [ ("red", ["red"; "ruby"; "crimson"; "candy apple"]);
    ("blue", ["blue"; "navy"; "cerulean"; "indigo"; "aqua"; "cobalt"]);
    ("green", ["green"; "teal"; "jade"; "mint"; "basil"; "olive"]);
    ("yellow", ["yellow"; "gold"; "lemon"; "chartreuse"]);
    ("pink", ["pink"; "fuchsia"; "mauve"; "rose"; "bubblegum"]);
    ("purple", ["purple"; "violet"; "lavender"; "plum"; "amethyst"]);
    ("orange", ["orange"; "peach"; "coral"; "apricot"; "cinnamon"]);
    ("brown", ["brown"; "taupe"; "chocolate"; "bronze"; "cappuccino"]);
    ("black", ["black"; "charcoal"; "ebony"]);
    ("white", ["white"; "ivory"; "cream"]);
    ("grey", ["grey"; "silver"; "smokey"; "slate"]);
    ("multi", ["multi"]) ].

Fixpoint starts_with (needle s : string) : bool :=
  match needle, s with
  | EmptyString, _ => true
  | String a needle', String b s' => Ascii.eqb a b && starts_with needle' s'
  | String _ _, EmptyString => false
  end.

(** [needle in s] on two [str]. *)
Fixpoint contains (needle s : string) : bool :=
  starts_with needle s ||
  match s with
  | EmptyString => false
  | String _ r => contains needle r
  end.

(** The inner loop of lines 223-225 on one entry of the dictionary. *)
Definition has_shade (color_lower : string) (entry : string * list string) : bool :=
  existsb (fun shade => contains shade color_lower) entry.2.

(** Lines 204-226. *)
Definition classify_color (color : option string) : string :=
  match color with
  | None => "unknown"
  | Some color =>
      let color_lower := lower color in
      match List.find (has_shade color_lower) colors with
      | Some entry => entry.1
      | None => "unknown"
      end
  end.

(** ** Dimensions (lines 277 and 279) *)

(** [distinct()]. *)
Definition distinct {A} `{EqDecision A} (df : list A) : list A := remove_dups df.

Definition dim_retailer (df : list KeyedRecord) : list (option string * Z) :=
  distinct
    (map (fun k => (retailer (product (sized (metrics (enriched k)))),
                    retailer_id k)) df).

Definition dim_size (df : list KeyedRecord)
  : list (string * option Z * string * Z * Z * string) :=
  distinct
    (map (fun k => let r := sized (metrics (enriched k)) in
                   (size r, size_number r, size_letter r, is_available r,
                    size_id k, size_group r)) df).

(** ** Size columns written back (lines 308-309) *)

(** [concat_ws(sep, array)] on an array without NULL. *)
Fixpoint concat_ws (sep : string) (arr : list string) : string :=
  match arr with
  | [] => EmptyString
  | [x] => x
  | x :: rest => x ++ sep ++ concat_ws sep rest
  end.

(** ** Size groups outside the predefined ones (lines 329-335) *)

Definition predefined_groups : list string :=
  [ "Small"; "Medium"; "Large"; "Extra Large"; "Unknown"; "XXS"; "XS"; "S";
    "M"; "L"; "XL"; "XXL"; "true"; "XLarge"; "2426Plus"; "1XPlus";
    "1XApparel"; "2XApparel"; "3XApparel"; "false"; "OK" ].

Definition unusual_sizes (df_filtered : list KeyedRecord) : list string :=
  let unique_sizes :=
    distinct (map (fun k => size_group (sized (metrics (enriched k)))) df_filtered) in
  List.filter (fun g => negb (existsb (String.eqb g) predefined_groups))
    unique_sizes.

(** * The rules as the specification words them

    Definitions that follow the specification, to be compared with the
    ones above. *)

(** Section 4.1, the numeric component: the digits at the head of the
    token, absent when the token does not start with a digit. *)
Definition leading_number (tok : string) : option Z :=
  match take_class is_digit tok with
  | EmptyString => None
  | digits => Some (decimal_acc 0 digits)
  end.

(** Section 4.2: the ranges on [size_number], then the three shapes of
    token; [letters] is the class of the seventh rule. *)
Definition within (n : option Z) (lo hi : Z) : bool :=
  match n with
  | Some v => (lo <=? v) && (v <=? hi)
  | None => false
  end.

Definition one_of (members : string) (c : ascii) : bool :=
  existsb (Ascii.eqb c) (list_ascii_of_string members).

(** One or more characters, all of the class. *)
Definition made_of (p : ascii -> bool) (tok : string) : bool :=
  negb (String.eqb tok "") && all_class p tok.

Definition size_rules (letters : ascii -> bool) (tok : string) (n : option Z)
  : string :=
  if within n 30 32 then "Small"
  else if within n 34 36 then "Medium"
  else if within n 38 40 then "Large"
  else if within n 42 46 then "Extra Large"
  else if made_of (one_of "SMLXsmlx") tok then "Not Bras"
  else if made_of (one_of "6789") tok then "Not Bras"
  else if made_of letters tok then "Not Bras"
  else "Unknown".

Fixpoint last_char (s : string) : option ascii :=
  match s with
  | EmptyString => None
  | String c EmptyString => Some c
  | String _ r => last_char r
  end.

(** Section 4.1, availability: the cleaned token against the cleaned
    entries of [available_size]. *)
Definition is_available_cleaned (available_size : option (list string))
    (size : string) : Z :=
  is_available_of (option_map (map clean_size) available_size) size.

(** Section 4.5: the label of the first rule whose pattern matches. *)
Definition first_match (rules : list (pattern * string)) (name : string)
  : option string :=
  option_map snd (List.find (fun rule => rlike rule.1 name) rules).

(** The name has the word, in any case, between two word boundaries. *)
Definition contains_word (word name : string) : bool :=
  rlike (Words [word]) name.

(** Section 4.3, on the availability in hundredths. *)
Definition status_rule (h : Z) : string :=
  if h <? 30 then "Sanction" else if h <? 50 then "Warning" else "OK".

Definition warning_sanction_rule (size_group : string) (h : Z) : string :=
  if String.eqb size_group "Extra Large"
  then (if h <? 30 then "Sanction" else if h <? 50 then "Warning" else "")
  else "".

(** The two thresholds on a stored percentage of [h] hundredths. *)
Definition thresholds_agree (h : Z) : bool :=
  Bool.eqb (Qle_bool (to_double (3 # 10)%Q) (decimal2_as_float h)) (30 <=? h)
  && Bool.eqb (Qle_bool (to_double (5 # 10)%Q) (decimal2_as_float h)) (50 <=? h).

(** The three surrogate keys of a row are one number. *)
Definition same_keys (k : KeyedRecord) : Prop :=
  product_id k = retailer_id k /\ retailer_id k = size_id k.

(** The two roundings of [h] hundredths are those of the IEEE 754
    specification. *)
Definition agrees_with_ieee (h : Z) : bool :=
  match ieee_value (ieee_double_of_hundredths h),
        ieee_value (ieee_single_of_double (ieee_double_of_hundredths h)) with
  | Some d, Some f =>
      Qeq_bool d (to_double (h # 100)%Q) && Qeq_bool f (decimal2_as_float h)
  | _, _ => false
  end.

(** * Notions used by the further properties *)

Fixpoint count_commas (s : string) : nat :=
  match s with
  | EmptyString => 0
  | String c r => (if Ascii.eqb c "," then 1 else 0) + count_commas r
  end.

(** A piece as [split] leaves it after a comma: no comma in it, and no
    white space at its head. *)
Definition no_comma (t : string) : bool :=
  all_class (fun c => negb (Ascii.eqb c ",")) t.

Definition no_leading_space (t : string) : bool :=
  match t with
  | EmptyString => true
  | String c _ => negb (is_space c)
  end.

(** The rows of the job, stage by stage, as values: what each stage
    yields when it does not stop. *)
Definition int_of_digits (digits : string) : option Z :=
  match digits with
  | EmptyString => None
  | _ => if decimal_acc 0 digits <=? int_max
         then Some (decimal_acc 0 digits) else None
  end.

Definition size_row (p : Product (list string)) (raw : string) : SizeRecord :=
  let size := clean_size raw in
  let n := int_of_digits (extract_digits size) in
  {| product := p;
     size := size;
     size_number := n;
     size_letter := size_letter_of size;
     is_available := is_available_of (available_size p) size;
     size_group := size_group_of size n |}.

Definition exploded (df : list (Product (list string))) : list SizeRecord :=
  flat_map (fun p => map (size_row p) (explode (total_sizes p))) df.

Definition percentage (available total : Z) : option Q :=
  if total =? 0 then None
  else Some (decimal2_as_float (round2 (inject_Z available / inject_Z total))).

Definition metrics_row (r : SizeRecord) : MetricsRecord :=
  let total := sql_size (total_sizes (product r)) in
  let available := sql_size (available_size (product r)) in
  let ap := percentage available total in
  {| sized := r;
     total_offered_items := total;
     available_items := available;
     availability_percentage := ap;
     status := status_of ap;
     Warning_Sanction := Warning_Sanction_of (size_group r) ap |}.

(** The six values of [size_group]. *)
Definition size_groups : list string :=
  [ "Small"; "Medium"; "Large"; "Extra Large"; "Not Bras"; "Unknown" ].

(** The rows that reach the brand mapping of line 251. *)
Definition job_metrics (df : list (Product string)) : list MetricsRecord :=
  map metrics_row (exploded (map ensure_array_columns (initial_data_clean df))).

(** The labels of [category_patterns]. *)
Definition category_labels : list string :=
  [ "Bras"; "Tops"; "Panties"; "Bikinis"; "Sleepwear and Lingerie";
    "Tops Sport"; "Other" ].

(** A pattern on a nullable column, where NULL does not match. *)
Definition rlike_null (p : pattern) (col : option string) : bool :=
  match col with
  | Some s => rlike p s
  | None => false
  end.

(** The label of the first rule that matches one of two columns. *)
Definition first_match_either (rules : list (pattern * string))
    (name description : option string) : option string :=
  option_map snd
    (List.find (fun rule => rlike_null rule.1 name || rlike_null rule.1 description)
       rules).

(** * Sample rows *)

(** A product offered and available in the single size [One Size]. *)
Definition one_size_product : Product string :=
  {| product_name := Some "Lace Bralette";
     brand_name := Some "Wacoal";
     retailer := Some "Macys";
     total_sizes := Some "One Size";
     available_size := Some "One Size" |}.

(** A row of a product offered in ten sizes, three of them available. *)
Definition three_of_ten_row : SizeRecord :=
  {| product :=
       {| product_name := Some "Plunge Bra";
          brand_name := Some "Wacoal";
          retailer := Some "Macys";
          total_sizes := Some ["42A"; "42B"; "42C"; "42D"; "44A"; "44B"; "44C";
                               "44D"; "46A"; "46B"];
          available_size := Some ["42A"; "44B"; "46A"] |};
     size := "42A";
     size_number := Some 42;
     size_letter := "A";
     is_available := 1;
     size_group := "Extra Large" |}.

(** A row whose [total_sizes] array is empty. *)
Definition no_size_row : SizeRecord :=
  {| product :=
       {| product_name := Some "Plunge Bra";
          brand_name := Some "Wacoal";
          retailer := Some "Macys";
          total_sizes := Some [];
          available_size := Some ["42A"] |};
     size := "42A";
     size_number := Some 42;
     size_letter := "A";
     is_available := 1;
     size_group := "Extra Large" |}.

(** A bra offered in a letter size and a band size. *)
Definition bra_product : Product string :=
  {| product_name := Some "Lace Bra";
     brand_name := Some "B.TEMPT'D";
     retailer := Some "Macys";
     total_sizes := Some "s, 32B";
     available_size := Some "32B" |}.

(** A bra offered in the sizes [XL] and [34B], and its row [XL]. *)
Definition xl_bra_product : Product string :=
  {| product_name := Some "Plunge Bra";
     brand_name := Some "Wacoal";
     retailer := Some "Macys";
     total_sizes := Some "XL, 34B";
     available_size := Some "34B" |}.

Definition xl_bra_row : EnrichedRecord :=
  {| metrics := metrics_row (size_row (ensure_array_columns xl_bra_product) "XL");
     canonical_brand_name := "Wacoal";
     sub_brand_name := "";
     category := Some "Bras" |}.

(** A panty offered in the letter sizes [s] and [m]. *)
Definition panty_product : Product string :=
  {| product_name := Some "Lace Thong";
     brand_name := Some "aerie";
     retailer := Some "Macys";
     total_sizes := Some "s, m";
     available_size := Some "m" |}.

(** * Properties *)

(** ** Characters *)

(** Case analysis on the 256 characters. *)
Ltac by_cases_on_char c :=
  destruct c as [[] [] [] [] [] [] [] []]; vm_compute; try reflexivity;
  try discriminate; intuition (try discriminate).

Lemma alnum_not_space c : is_alnum c = true -> is_space c = false.
Proof. by_cases_on_char c. Qed.

Lemma alnum_not_blank c : is_alnum c = true -> is_blank c = false.
Proof. by_cases_on_char c. Qed.

Lemma alnum_not_paren c : is_alnum c = true -> Ascii.eqb c "(" = false.
Proof. by_cases_on_char c. Qed.

Lemma alnum_not_terminator c : is_alnum c = true -> is_line_terminator c = false.
Proof. by_cases_on_char c. Qed.

Lemma alnum_not_cr c : is_alnum c = true -> (code c =? 13)%N = false.
Proof. by_cases_on_char c. Qed.

Lemma lower_char_idempotent c : lower_char (lower_char c) = lower_char c.
Proof. by_cases_on_char c. Qed.

(** ** Strings and classes *)

Lemma all_class_impl (p q : ascii -> bool) s :
  (forall c, p c = true -> q c = true) ->
  all_class p s = true -> all_class q s = true.
Proof.
  intros Hpq. induction s as [|c r IH]; simpl; [reflexivity|].
  intros [Hc Hr]%andb_true_iff. rewrite (Hpq c Hc). simpl. auto.
Qed.

Lemma remove_class_all (p : ascii -> bool) s :
  all_class (fun c => negb (p c)) (remove_class p s) = true.
Proof.
  induction s as [|c r IH]; simpl; [reflexivity|].
  destruct (p c) eqn:E; simpl; [assumption|]. rewrite E. simpl. assumption.
Qed.

Lemma remove_class_id (p : ascii -> bool) s :
  all_class (fun c => negb (p c)) s = true -> remove_class p s = s.
Proof.
  induction s as [|c r IH]; simpl; [reflexivity|].
  intros [Hc Hr]%andb_true_iff. apply negb_true_iff in Hc. rewrite Hc.
  f_equal. auto.
Qed.

Lemma rtrim_id s :
  all_class (fun c => negb (is_blank c)) s = true -> rtrim s = s.
Proof.
  induction s as [|c r IH]; simpl; [reflexivity|].
  intros [Hc Hr]%andb_true_iff. apply negb_true_iff in Hc.
  rewrite (IH Hr). destruct r; [rewrite Hc|]; reflexivity.
Qed.

Lemma drop_class_id (p : ascii -> bool) s :
  all_class (fun c => negb (p c)) s = true -> drop_class p s = s.
Proof.
  destruct s as [|c r]; simpl; [reflexivity|].
  intros [Hc _]%andb_true_iff. apply negb_true_iff in Hc. now rewrite Hc.
Qed.

Lemma trim_id s :
  all_class (fun c => negb (is_blank c)) s = true -> trim s = s.
Proof. intros H. unfold trim. rewrite drop_class_id by exact H. now apply rtrim_id. Qed.

Lemma strip_parens_id s :
  all_class (fun c => negb (Ascii.eqb c "(")) s = true ->
  strip_parens false s = s.
Proof.
  induction s as [|c r IH]; simpl; [reflexivity|].
  intros [Hc Hr]%andb_true_iff. apply negb_true_iff in Hc. rewrite Hc. simpl.
  f_equal. auto.
Qed.

(** The [size] column only holds ASCII letters and digits. *)
Lemma clean_size_alnum s : all_class is_alnum (clean_size s) = true.
Proof.
  unfold clean_size.
  eapply all_class_impl; [|apply remove_class_all].
  intros c Hc. simpl in Hc. now apply negb_true_iff, negb_false_iff in Hc.
Qed.

(** A token of letters and digits is left as it is by lines 90-92. *)
Lemma clean_size_fixed s : all_class is_alnum s = true -> clean_size s = s.
Proof.
  intros H. unfold clean_size.
  rewrite (remove_class_id is_space).
  2:{ eapply all_class_impl; [|exact H]. intros c Hc.
      now rewrite (alnum_not_space c Hc). }
  rewrite trim_id.
  2:{ eapply all_class_impl; [|exact H]. intros c Hc.
      now rewrite (alnum_not_blank c Hc). }
  rewrite strip_parens_id.
  2:{ eapply all_class_impl; [|exact H]. intros c Hc.
      now rewrite (alnum_not_paren c Hc). }
  apply remove_class_id.
  eapply all_class_impl; [|exact H]. intros c Hc. now rewrite Hc.
Qed.

(** C9: cleaning a size token is idempotent: cleaning a cleaned token
    gives the cleaned token back, for every string. *)
Theorem clean_size_idempotent (s : string) :
  clean_size (clean_size s) = clean_size s.
Proof. apply clean_size_fixed, clean_size_alnum. Qed.

(** ** Size Normalizer *)

Lemma append_cons c s t : String c s ++ t = String c (s ++ t).
Proof. reflexivity. Qed.

Lemma append_empty t : "" ++ t = t.
Proof. reflexivity. Qed.

Lemma take_drop_class (p : ascii -> bool) s :
  s = take_class p s ++ drop_class p s.
Proof.
  induction s as [|c r IH]; simpl; [reflexivity|].
  destruct (p c); [rewrite append_cons; now f_equal | reflexivity].
Qed.

Lemma take_class_all (p : ascii -> bool) s : all_class p (take_class p s) = true.
Proof.
  induction s as [|c r IH]; simpl; [reflexivity|].
  destruct (p c) eqn:E; simpl; [now rewrite E | reflexivity].
Qed.

Lemma take_drop_class_empty (p : ascii -> bool) s :
  take_class p (drop_class p s) = "".
Proof.
  induction s as [|c r IH]; simpl; [reflexivity|].
  destruct (p c) eqn:E; simpl; [assumption | now rewrite E].
Qed.

Lemma drop_class_all (p q : ascii -> bool) s :
  all_class q s = true -> all_class q (drop_class p s) = true.
Proof.
  induction s as [|c r IH]; simpl; [reflexivity|].
  intros H. destruct (p c); [|exact H].
  apply andb_true_iff in H. now apply IH.
Qed.

Lemma take_class_id (p : ascii -> bool) s : all_class p s = true -> take_class p s = s.
Proof.
  induction s as [|c r IH]; simpl; [reflexivity|].
  intros [Hc Hr]%andb_true_iff. rewrite Hc. f_equal. auto.
Qed.

Lemma at_dollar_alnum s :
  all_class is_alnum s = true -> at_dollar s = match s with "" => true | _ => false end.
Proof.
  destruct s as [|c [|d [|e r]]]; simpl; try reflexivity.
  - intros [Hc _]%andb_true_iff. now apply alnum_not_terminator.
  - intros [Hc _]%andb_true_iff. now rewrite alnum_not_cr.
Qed.

(** On a cleaned token [cls+$] at the head succeeds exactly when the
    token is not empty and wholly in the class. *)
Lemma at_dollar_drop (p : ascii -> bool) s :
  all_class is_alnum s = true -> at_dollar (drop_class p s) = all_class p s.
Proof.
  induction s as [|c r IH]; [reflexivity|].
  intros H. simpl drop_class. simpl all_class. destruct (p c) eqn:E.
  - simpl in H. apply andb_true_iff in H. now apply IH.
  - now rewrite at_dollar_alnum.
Qed.

Lemma class_plus_dollar_alnum (p : ascii -> bool) s :
  all_class is_alnum s = true -> class_plus_dollar p s = made_of p s.
Proof.
  intros H. unfold class_plus_dollar, made_of.
  destruct s as [|c r]; [reflexivity|].
  rewrite at_dollar_drop by exact H.
  simpl. destruct (p c); reflexivity.
Qed.

Lemma made_of_take (p : ascii -> bool) s : made_of p s = true -> take_class p s = s.
Proof. intros [_ H]%andb_true_iff. now apply take_class_id. Qed.

Lemma all_class_app (p : ascii -> bool) s t :
  all_class p (s ++ t) = all_class p s && all_class p t.
Proof.
  induction s as [|c r IH]; [reflexivity|].
  rewrite append_cons. simpl. rewrite IH. now rewrite andb_assoc.
Qed.

(** The letters that [([a-zA-Z]+)$] extracts from a cleaned token end the
    token, and no letter stands just before them. *)
Lemma extract_trailing_letters_spec s :
  all_class is_alnum s = true ->
  exists before,
    s = before ++ extract_trailing_letters s
    /\ all_class is_alpha (extract_trailing_letters s) = true
    /\ match last_char before with
       | Some c => is_alpha c = false
       | None => True
       end.
Proof.
  induction s as [|c r IH]; intros H.
  - exists "". simpl. auto.
  - cbn [extract_trailing_letters].
    rewrite class_plus_dollar_alnum by exact H.
    destruct (made_of is_alpha (String c r)) eqn:E.
    + exists "". rewrite (made_of_take _ _ E).
      apply andb_true_iff in E. simpl. tauto.
    + assert (Hr : all_class is_alnum r = true)
        by (simpl in H; now apply andb_true_iff in H).
      destruct (IH Hr) as (before & Heq & Hall & Hlast).
      exists (String c before).
      split; [rewrite append_cons; now f_equal|]. split; [exact Hall|].
      destruct before as [|b before']; [|exact Hlast].
      rewrite append_empty in Heq. simpl. unfold made_of in E. simpl in E.
      rewrite Heq, Hall, andb_true_r in E. exact E.
Qed.

Lemma cast_int_digits digits :
  cast_int spark_sql_ansi_enabled digits
  = Ok match digits with
       | "" => None
       | _ => if decimal_acc 0 digits <=? int_max
              then Some (decimal_acc 0 digits) else None
       end.
Proof.
  unfold cast_int, spark_sql_ansi_enabled.
  destruct digits; [reflexivity|]. now destruct (_ <=? _).
Qed.

Lemma extract_digits_spec s :
  exists pre post,
    s = pre ++ extract_digits s ++ post
    /\ all_class (fun c => negb (is_digit c)) pre = true
    /\ all_class is_digit (extract_digits s) = true
    /\ take_class is_digit post = "".
Proof.
  set (nd := fun c => negb (is_digit c)).
  exists (take_class nd s), (drop_class is_digit (drop_class nd s)).
  unfold extract_digits. fold nd.
  rewrite <- take_drop_class, <- take_drop_class.
  auto using take_class_all, take_drop_class_empty.
Qed.

Lemma extract_digits_none s :
  all_class (fun c => negb (is_digit c)) s = true -> extract_digits s = "".
Proof.
  unfold extract_digits. induction s as [|c r IH]; simpl; [reflexivity|].
  intros [Hc Hr]%andb_true_iff. rewrite Hc. auto.
Qed.

Lemma last_char_append s t : t <> "" -> last_char (s ++ t) = last_char t.
Proof.
  intros Ht. induction s as [|c r IH]; [reflexivity|].
  rewrite append_cons. cbn [last_char]. rewrite IH.
  destruct (r ++ t) eqn:E; [|reflexivity].
  destruct r; [rewrite append_empty in E; contradiction | discriminate].
Qed.

Lemma last_char_all (p : ascii -> bool) s :
  all_class p s = true -> s <> "" -> exists c, last_char s = Some c /\ p c = true.
Proof.
  induction s as [|c r IH]; [contradiction|].
  intros [Hc Hr]%andb_true_iff _. destruct r as [|d r'].
  - exists c. auto.
  - destruct (IH Hr) as (x & Hx & Hp); [discriminate|]. exists x. auto.
Qed.

Lemma take_class_app (p : ascii -> bool) d l :
  all_class p d = true -> take_class p (d ++ l) = d ++ take_class p l.
Proof.
  induction d as [|c r IH]; [reflexivity|].
  cbn [all_class]. intros [Hc Hr]%andb_true_iff.
  rewrite !append_cons. cbn [take_class]. rewrite Hc. now rewrite IH.
Qed.

Lemma append_empty_r s : s ++ "" = s.
Proof. induction s as [|c r IH]; [reflexivity|]. rewrite append_cons. now f_equal. Qed.

Lemma drop_class_app (p : ascii -> bool) pre rest :
  all_class p pre = true -> drop_class p (pre ++ rest) = drop_class p rest.
Proof.
  induction pre as [|c r IH]; [reflexivity|].
  cbn [all_class]. intros [Hc Hr]%andb_true_iff.
  rewrite append_cons. cbn [drop_class]. rewrite Hc. auto.
Qed.

(** [(\d+)] finds its match at the first digit of the subject, whatever
    stands before it, and takes the whole run that starts there. *)
Lemma extract_digits_run pre digits post :
  all_class (fun c => negb (is_digit c)) pre = true ->
  all_class is_digit digits = true -> digits <> "" ->
  take_class is_digit post = "" ->
  extract_digits (pre ++ digits ++ post) = digits.
Proof.
  intros Hpre Hd Hne Hpost. unfold extract_digits.
  rewrite drop_class_app by exact Hpre.
  destruct digits as [|c r]; [contradiction|].
  assert (Hc : is_digit c = true)
    by (cbn [all_class] in Hd; now apply andb_true_iff in Hd).
  rewrite append_cons. cbn [drop_class]. rewrite Hc. cbn [negb].
  rewrite <- append_cons, take_class_app by exact Hd.
  now rewrite Hpost, append_empty_r.
Qed.

(** When [(\d+)] finds nothing, nothing of the subject lies behind the
    characters it skipped: the subject has no digit at all. *)
Lemma extract_digits_empty s :
  extract_digits s = "" ->
  drop_class is_digit (drop_class (fun c => negb (is_digit c)) s) = "".
Proof.
  unfold extract_digits.
  pose proof (take_drop_class_empty (fun c => negb (is_digit c)) s) as H.
  destruct (drop_class _ s) as [|c r]; [reflexivity|].
  cbn [take_class] in *. destruct (is_digit c); cbn [negb] in H; discriminate.
Qed.

(** C4, amended: on every cleaned token [size_number] is the first run
    of digits of the token, wherever it starts (NULL when the token has
    no digit or the run exceeds the 32-bit range), [size_letter] is the
    run of letters that ends the token, a token without digit or final
    letter gives NULL and the empty string, and the evaluation never
    stops the job.  The token splits into the characters before its
    first digit, the run of digits that starts there (empty only when
    the token has no digit) and the rest; and whichever way a token is
    written as non-digits, a non-empty run of digits and a rest that
    does not start with a digit, [size_number] is the value of that
    run. *)
Theorem size_components (raw : string) :
  let tok := clean_size raw in
  (exists pre digits post,
      tok = pre ++ digits ++ post
      /\ all_class (fun c => negb (is_digit c)) pre = true
      /\ all_class is_digit digits = true
      /\ take_class is_digit post = ""
      /\ (digits = "" -> post = "")
      /\ size_number_of tok
         = Ok match digits with
              | "" => None
              | _ => if decimal_acc 0 digits <=? int_max
                     then Some (decimal_acc 0 digits) else None
              end)
  /\ (forall pre digits post,
        tok = pre ++ digits ++ post ->
        all_class (fun c => negb (is_digit c)) pre = true ->
        all_class is_digit digits = true ->
        digits <> "" ->
        take_class is_digit post = "" ->
        size_number_of tok
        = Ok (if decimal_acc 0 digits <=? int_max
              then Some (decimal_acc 0 digits) else None))
  /\ (exists before,
        tok = before ++ size_letter_of tok
        /\ all_class is_alpha (size_letter_of tok) = true
        /\ match last_char before with
           | Some c => is_alpha c = false
           | None => True
           end)
  /\ (exists n, size_number_of tok = Ok n)
  /\ (all_class (fun c => negb (is_digit c)) tok = true ->
      size_number_of tok = Ok None)
  /\ (match last_char tok with Some c => is_alpha c = false | None => True end ->
      size_letter_of tok = "").
Proof.
  intros tok. pose proof (clean_size_alnum raw) as Halnum. fold tok in Halnum.
  split; [|split; [|split; [|split; [|split]]]].
  - set (nd := fun c => negb (is_digit c)).
    exists (take_class nd tok), (extract_digits tok),
           (drop_class is_digit (drop_class nd tok)).
    split.
    { unfold extract_digits. fold nd. now rewrite <- !take_drop_class. }
    split; [apply take_class_all|].
    split; [unfold extract_digits; apply take_class_all|].
    split; [apply take_drop_class_empty|].
    split; [apply extract_digits_empty|].
    unfold size_number_of. apply cast_int_digits.
  - intros pre digits post Heq Hpre Hd Hne Hpost.
    unfold size_number_of.
    rewrite Heq, (extract_digits_run pre digits post Hpre Hd Hne Hpost).
    rewrite cast_int_digits. destruct digits; [contradiction | reflexivity].
  - apply extract_trailing_letters_spec, Halnum.
  - unfold size_number_of. rewrite cast_int_digits. eauto.
  - intros H. unfold size_number_of. now rewrite extract_digits_none.
  - intros Hlast.
    destruct (extract_trailing_letters_spec tok Halnum) as (before & Heq & Hall & _).
    unfold size_letter_of.
    destruct (extract_trailing_letters tok) as [|c r] eqn:E; [reflexivity|].
    exfalso. rewrite Heq, last_char_append in Hlast by discriminate.
    destruct (last_char_all _ _ Hall) as (x & Hx & Hp); [discriminate|].
    rewrite Hx, Hp in Hlast. discriminate.
Qed.

Lemma size_components_witness :
  (clean_size "B32" = "B" ++ "32" ++ ""
   /\ all_class (fun c => negb (is_digit c)) "B" = true
   /\ all_class is_digit "32" = true
   /\ "32" <> ""
   /\ take_class is_digit "" = ""
   /\ size_number_of (clean_size "B32") = Ok (Some 32))
  /\ (all_class (fun c => negb (is_digit c)) (clean_size "One Size (US)") = true
      /\ size_number_of (clean_size "One Size (US)") = Ok None)
  /\ (match last_char (clean_size "32") with
      | Some c => is_alpha c = false
      | None => True
      end
      /\ size_letter_of (clean_size "32") = "").
Proof.
  split; [|split].
  - split; [reflexivity|]. split; [reflexivity|]. split; [reflexivity|].
    split; [discriminate|]. split; [reflexivity|].
    destruct (size_components "B32") as (_ & H & _).
    apply (H "B" "32" ""); [reflexivity | reflexivity | reflexivity | discriminate | reflexivity].
  - split; [reflexivity|].
    apply (size_components "One Size (US)"). reflexivity.
  - split; [reflexivity|].
    apply (size_components "32"). reflexivity.
Defined.

(** C4 as worded fails: the cleaned token [B32] does not start with a
    digit, and its [size_number] is 32, not NULL. *)
Lemma size_number_not_leading :
  clean_size "B32" = "B32"
  /\ size_number_of (clean_size "B32") = Ok (Some 32)
  /\ size_number_of (clean_size "B32") <> Ok (leading_number (clean_size "B32")).
Proof. split; [reflexivity|]. split; [reflexivity | discriminate]. Qed.

(** ** Size Classifier *)

Lemma class_SMLX c : in_class_ci "SMLXLXXL" c = one_of "SMLXsmlx" c.
Proof. by_cases_on_char c. Qed.

Lemma class_6789 c : in_class_ci "6789" c = one_of "6789" c.
Proof. by_cases_on_char c. Qed.

Lemma class_A_Z c : in_range_ci 65 90 c = is_alpha c.
Proof. by_cases_on_char c. Qed.

Lemma all_class_ext (p q : ascii -> bool) s :
  (forall c, p c = q c) -> all_class p s = all_class q s.
Proof.
  intros H. induction s as [|c r IH]; simpl; [reflexivity|]. now rewrite H, IH.
Qed.

Lemma rlike_anchored_class_alnum (p q : ascii -> bool) s :
  (forall c, p c = q c) ->
  all_class is_alnum s = true ->
  rlike_anchored_class p s = made_of q s.
Proof.
  intros Hpq H. unfold rlike_anchored_class.
  rewrite class_plus_dollar_alnum by exact H.
  unfold made_of. now rewrite (all_class_ext p q).
Qed.

Lemma between_within n lo hi (label : string) rest default :
  coalesce (when (between n lo hi) label :: rest) default
  = if within n lo hi then label else coalesce rest default.
Proof. destruct n as [v|]; simpl; [|reflexivity]. now destruct (_ && _). Qed.

Lemma when_some (b : bool) (label : string) rest default :
  coalesce (when (Some b) label :: rest) default
  = if b then label else coalesce rest default.
Proof. now destruct b. Qed.

(** C2, amended: on every cleaned token the size group is the first of
    the seven rules that applies, where the seventh rule takes letters of
    either case, and [Unknown] when none applies; a [size_number] of 31
    always gives [Small]. *)
Theorem size_group_rules (raw : string) (n : option Z) :
  let tok := clean_size raw in
  size_group_of tok n = size_rules is_alpha tok n
  /\ size_group_of tok (Some 31) = "Small".
Proof.
  intros tok. pose proof (clean_size_alnum raw) as Halnum. fold tok in Halnum.
  split; [|reflexivity].
  unfold size_group_of, size_conditions, size_rules. cbn [map].
  rewrite !between_within, !when_some.
  rewrite (rlike_anchored_class_alnum _ _ tok class_SMLX Halnum).
  rewrite (rlike_anchored_class_alnum _ _ tok class_6789 Halnum).
  rewrite (rlike_anchored_class_alnum _ _ tok class_A_Z Halnum).
  reflexivity.
Qed.

(** C2 as worded fails: the cleaned token [abc] is not made of capitals,
    none of the seven rules as worded applies, and its group is
    [Not Bras], not [Unknown]. *)
Lemma size_group_lowercase_letters :
  clean_size "abc" = "abc"
  /\ size_number_of "abc" = Ok None
  /\ size_rules is_upper "abc" None = "Unknown"
  /\ size_group_of "abc" None = "Not Bras"
  /\ size_group_of (clean_size "abc") None
     <> size_rules is_upper (clean_size "abc") None.
Proof.
  split; [reflexivity|]. split; [reflexivity|]. split; [reflexivity|].
  split; [reflexivity | discriminate].
Qed.

(** ** Availability of a size *)

(** Whatever line 99 reports available is a cleaned entry of the list. *)
Lemma is_available_sound available raw :
  is_available_of available (clean_size raw) = 1 ->
  is_available_cleaned available (clean_size raw) = 1.
Proof.
  unfold is_available_cleaned, is_available_of.
  destruct available as [l|]; simpl; [|discriminate].
  destruct (existsb _ l) eqn:E; [intros _|discriminate].
  apply existsb_exists in E as (x & Hin & Hx).
  apply String.eqb_eq in Hx. subst x.
  replace (existsb _ _) with true; [reflexivity|].
  symmetry. apply existsb_exists. exists (clean_size raw).
  split; [|apply String.eqb_refl].
  rewrite <- (clean_size_fixed _ (clean_size_alnum raw)) at 1. now apply in_map.
Qed.

(** C1 fails on the code: line 99 looks the cleaned token up in the
    entries of [available_size] as they were split, not cleaned.  The
    product whose only size, [One Size], is available gets the row
    [OneSize] with [is_available] 0, while the token is a member of the
    cleaned list. *)
Theorem is_available_against_raw_entries :
  exists r,
    normalize_and_explode_sizes [ensure_array_columns one_size_product] = Ok [r]
    /\ size r = "OneSize"
    /\ available_size (product r) = Some ["One Size"]
    /\ is_available r = 0
    /\ is_available_cleaned (available_size (product r)) (size r) = 1.
Proof. eexists. split; [reflexivity|]. repeat (split; [reflexivity|]). reflexivity. Qed.

(** ** Brand Canonicalizer *)

Lemma lower_idempotent s : lower (lower s) = lower s.
Proof.
  induction s as [|c r IH]; simpl; [reflexivity|].
  now rewrite lower_char_idempotent, IH.
Qed.

(** C5: the brand is trimmed and lower-cased, then looked up as it is in
    the table; a key of the table gives its pair, any other brand comes
    out as looked up, with an empty sub-brand.  [B.TEMPT'D] gives
    (Wacoal, b.tempt'd) and [unknown brand xyz] gives itself. *)
Theorem brand_columns_lookup (raw : string) :
  let key := lower (trim raw) in
  brand_columns (Some raw)
  = Ok match brand_mapping !! key with
       | Some mapped => mapped
       | None => (key, "")
       end
  /\ brand_columns (Some "B.TEMPT'D") = Ok ("Wacoal", "b.tempt'd")
  /\ brand_columns (Some "unknown brand xyz") = Ok ("unknown brand xyz", "").
Proof.
  intros key. split; [|split; reflexivity].
  unfold brand_columns, map_brand. cbn [option_map]. fold key.
  unfold key at 1 2. rewrite lower_idempotent. fold key.
  destruct (brand_mapping !! key) as [[b sb]|]; reflexivity.
Qed.

(** ** Category Classifier *)

Lemma category_step_assigned product_name c rule :
  category_step product_name (Some c) rule = Some c.
Proof.
  unfold category_step. simpl.
  now destruct (option_map (rlike rule.1) product_name) as [[]|].
Qed.

Lemma assign_loop_assigned product_name c rules :
  fold_left (category_step product_name) rules (Some c) = Some c.
Proof.
  induction rules as [|rule rest IH]; simpl; [reflexivity|].
  now rewrite category_step_assigned.
Qed.

Lemma assign_loop_first_match name rules :
  fold_left (category_step (Some name)) rules None = first_match rules name.
Proof.
  unfold first_match.
  induction rules as [|rule rest IH]; simpl; [reflexivity|].
  unfold category_step at 2. simpl.
  destruct (rlike rule.1 name); simpl; [apply assign_loop_assigned | exact IH].
Qed.

Lemma match_words_at_incl alts alts' prev s :
  incl alts alts' ->
  match_words_at alts prev s = true -> match_words_at alts' prev s = true.
Proof.
  intros Hincl [Hb Hex]%andb_true_iff. unfold match_words_at. rewrite Hb. simpl.
  apply existsb_exists in Hex as (w & Hin & Hw).
  apply existsb_exists. exists w. auto.
Qed.

Lemma find_words_incl alts alts' prev s :
  incl alts alts' ->
  find_words alts prev s = true -> find_words alts' prev s = true.
Proof.
  intros Hincl. revert prev.
  induction s as [|c r IH]; intros prev; simpl;
    intros [H|H]%orb_true_iff; apply orb_true_iff.
  - left. eapply match_words_at_incl; eauto.
  - discriminate.
  - left. eapply match_words_at_incl; eauto.
  - right. auto.
Qed.



(** ** Metrics Calculator *)

(** Rounding to the nearest integer never goes below the floor. *)
Lemma round_half_even_floor x : Qfloor x <= round_half_even x.
Proof.
  unfold round_half_even. destruct (Qcompare _ _); [destruct (Z.even _)| |]; lia.
Qed.

Lemma round_half_even_lower n x : (inject_Z n <= x)%Q -> n <= round_half_even x.
Proof.
  intros H. apply Qfloor_resp_le in H. rewrite Qfloor_Z in H.
  pose proof (round_half_even_floor x). lia.
Qed.

Lemma pow2_pos e : (0 < pow2 e)%Q.
Proof.
  unfold pow2. destruct (0 <=? e) eqn:E.
  - rewrite <- (Zlt_Qlt 0). apply Z.pow_pos_nonneg; lia.
  - apply Qinv_lt_0_compat. rewrite <- (Zlt_Qlt 0). apply Z.pow_pos_nonneg; lia.
Qed.

Lemma round_binary_pos_nonneg prec x :
  (0 < x)%Q -> (0 <= round_binary_pos prec x)%Q.
Proof.
  intros Hx. unfold round_binary_pos.
  pose proof (pow2_pos (Qlog2 x - (prec - 1))) as Hulp.
  generalize dependent (pow2 (Qlog2 x - (prec - 1))). intros ulp Hulp.
  apply Qmult_le_0_compat; [|now apply Qlt_le_weak].
  rewrite <- (Zle_Qle 0). apply round_half_even_lower.
  apply Qle_shift_div_l; [exact Hulp|]. rewrite Qmult_0_l. now apply Qlt_le_weak.
Qed.

(** The rounding keeps the sign: nothing at or below zero rounds above it. *)
Lemma round_binary_nonpos prec x : (x <= 0)%Q -> (round_binary prec x <= 0)%Q.
Proof.
  intros Hx. unfold round_binary. rewrite Qred_correct.
  destruct (Qcompare x 0) eqn:E.
  - lra.
  - apply Qlt_alt in E. pose proof (round_binary_pos_nonneg prec (- x)). lra.
  - apply Qgt_alt in E. lra.
Qed.

(** 1 is a floating point number of every precision: nothing at or above
    it rounds below it. *)
Lemma round_binary_ge_1 prec x :
  1 <= prec -> (1 <= x)%Q -> (1 <= round_binary prec x)%Q.
Proof.
  intros Hp Hx. unfold round_binary. rewrite Qred_correct.
  assert (E : Qcompare x 0 = Gt) by (apply Qgt_alt; lra). rewrite E.
  unfold round_binary_pos, Qlog2.
  assert (Hb : Qle_bool 1 x = true) by now apply Qle_bool_iff. rewrite Hb.
  set (e := Z.log2 (Qfloor x)).
  assert (Hfl : 1 <= Qfloor x).
  { apply Qfloor_resp_le in Hx. exact Hx. }
  assert (He : 0 <= e) by apply Z.log2_nonneg.
  assert (Hpow : (inject_Z (2 ^ e) <= x)%Q).
  { eapply Qle_trans; [|apply Qfloor_le]. rewrite <- Zle_Qle.
    apply Z.log2_spec. lia. }
  unfold pow2. destruct (0 <=? e - (prec - 1)) eqn:Es.
  - apply Z.leb_le in Es. set (s := e - (prec - 1)) in *.
    assert (Hs : 1 <= 2 ^ s) by (apply (Z.pow_le_mono_r 2 0 s); lia).
    assert (Hse : 2 ^ s <= 2 ^ e) by (apply Z.pow_le_mono_r; lia).
    assert (Hm : 1 <= round_half_even (x / inject_Z (2 ^ s))).
    { apply round_half_even_lower. apply Qle_shift_div_l.
      - rewrite <- (Zlt_Qlt 0). lia.
      - rewrite Qmult_1_l. eapply Qle_trans; [|exact Hpow]. now rewrite <- Zle_Qle. }
    rewrite <- inject_Z_mult. rewrite <- (Zle_Qle 1). nia.
  - apply Z.leb_gt in Es. set (N := 2 ^ (- (e - (prec - 1)))).
    assert (HN : 1 <= N) by (apply (Z.pow_le_mono_r 2 0); lia).
    assert (HNq : (1 <= inject_Z N)%Q) by now rewrite <- (Zle_Qle 1).
    assert (Hm : N <= round_half_even (x / / inject_Z N)).
    { apply round_half_even_lower. unfold Qdiv. rewrite Qinv_involutive. nra. }
    apply Qle_shift_div_l; [lra|]. rewrite Qmult_1_l. now rewrite <- Zle_Qle.
Qed.

(** On the hundredths from -1.00 to 10.00 the two roundings are those
    of the IEEE 754 specification. *)
Lemma round_binary_is_ieee :
  forallb (fun k => agrees_with_ieee (Z.of_nat k - 100)) (seq 0 1101) = true.
Proof. vm_compute. reflexivity. Qed.

Example float_of_three_tenths :
  decimal2_as_float 30 = (5033165 # 16777216)%Q
  /\ to_double (3 # 10)%Q = (5404319552844595 # 18014398509481984)%Q
  /\ (to_double (3 # 10) < decimal2_as_float 30)%Q.
Proof. vm_compute. repeat split. Qed.

(** The stored percentages from 0.00 to 1.00, one by one. *)
Lemma thresholds_small :
  forallb (fun k => thresholds_agree (Z.of_nat k)) (seq 0 101) = true.
Proof. vm_compute. reflexivity. Qed.

(** A stored percentage of [h] hundredths compares with the literals 0.3
    and 0.5 as [h] compares with 30 and 50: the float nearest 0.30 lies
    above the double nearest 0.3. *)
Lemma decimal2_thresholds h :
  Qle_bool (to_double (3 # 10)%Q) (decimal2_as_float h) = (30 <=? h)
  /\ Qle_bool (to_double (5 # 10)%Q) (decimal2_as_float h) = (50 <=? h).
Proof.
  assert (H3 : (0 < to_double (3 # 10) <= 1)%Q)
    by (vm_compute; split; [reflexivity | discriminate]).
  assert (H5 : (0 < to_double (5 # 10) <= 1)%Q)
    by (vm_compute; split; [reflexivity | discriminate]).
  destruct (Z.lt_ge_cases h 0) as [Hneg|Hnn];
    [|destruct (Z.le_gt_cases h 100) as [Hle|Hgt]].
  - assert (Hs : (decimal2_as_float h <= 0)%Q).
    { unfold decimal2_as_float, to_float, to_double.
      apply round_binary_nonpos, round_binary_nonpos.
      unfold Qle. simpl. lia. }
    replace (30 <=? h) with false by (symmetry; apply Z.leb_gt; lia).
    replace (50 <=? h) with false by (symmetry; apply Z.leb_gt; lia).
    split; apply not_true_is_false; intros H%Qle_bool_iff; lra.
  - pose proof thresholds_small as H. rewrite forallb_forall in H.
    specialize (H (Z.to_nat h)). rewrite Z2Nat.id in H by lia.
    unfold thresholds_agree in H.
    rewrite andb_true_iff, !eqb_true_iff in H. apply H, in_seq. lia.
  - assert (Hs : (1 <= decimal2_as_float h)%Q).
    { unfold decimal2_as_float, to_float, to_double.
      apply round_binary_ge_1; [lia|]. apply round_binary_ge_1; [lia|].
      unfold Qle. simpl. lia. }
    replace (30 <=? h) with true by (symmetry; apply Z.leb_le; lia).
    replace (50 <=? h) with true by (symmetry; apply Z.leb_le; lia).
    split; apply Qle_bool_iff; lra.
Qed.

(** [half_up] is within one half of its argument. *)
Lemma half_up_near x :
  (inject_Z (half_up x) - (1 # 2) <= x <= inject_Z (half_up x) + (1 # 2))%Q.
Proof.
  unfold half_up. destruct (Qle_bool 0 x).
  - pose proof (Qfloor_le (x + (1 # 2))). pose proof (Qlt_floor (x + (1 # 2))).
    rewrite inject_Z_plus in *. change (inject_Z 1) with 1%Q in *. lra.
  - pose proof (Qfloor_le (- x + (1 # 2))). pose proof (Qlt_floor (- x + (1 # 2))).
    rewrite inject_Z_opp. rewrite inject_Z_plus in *.
    change (inject_Z 1) with 1%Q in *. lra.
Qed.

(** [round(a / t, 2)] is a nearest number of hundredths of [a / t]. *)
Lemma round2_near a t :
  t <> 0 ->
  2 * Z.abs (100 * a - round2 (inject_Z a / inject_Z t) * t) <= Z.abs t.
Proof.
  intros Ht. unfold round2.
  set (x := (inject_Z a / inject_Z t * 100)%Q).
  pose proof (half_up_near x) as [Hlo Hhi].
  set (h := half_up x) in *.
  assert (Hx : (x * inject_Z t == 100 * inject_Z a)%Q).
  { unfold x. field. intros H. apply Ht. now apply (inject_Z_injective t 0). }
  assert (Hcases : (0 < inject_Z t \/ inject_Z t < 0)%Q).
  { destruct (Z.lt_trichotomy t 0) as [H|[H|H]]; [right|contradiction|left].
    - unfold Qlt. simpl. lia.
    - unfold Qlt. simpl. lia. }
  assert (Hq : (- inject_Z (Z.abs t) <= 2 * (100 * inject_Z a - inject_Z h * inject_Z t) <= inject_Z (Z.abs t))%Q).
  { destruct Hcases as [Hpos|Hneg].
    - rewrite Z.abs_eq by (unfold Qlt in Hpos; simpl in Hpos; lia). nra.
    - rewrite Z.abs_neq by (unfold Qlt in Hneg; simpl in Hneg; lia). rewrite inject_Z_opp. nra. }
  destruct Hq as [Hq1 Hq2].
  assert (E : (2 * (100 * inject_Z a - inject_Z h * inject_Z t) == inject_Z (2 * (100 * a - h * t)))%Q).
  { unfold Z.sub. rewrite !inject_Z_mult, inject_Z_plus, inject_Z_opp, !inject_Z_mult.
    ring. }
  rewrite E in Hq1, Hq2. rewrite <- inject_Z_opp in Hq1.
  rewrite <- Zle_Qle in Hq1, Hq2. lia.
Qed.

Lemma status_of_decimal h : status_of (Some (decimal2_as_float h)) = status_rule h.
Proof.
  destruct (decimal2_thresholds h) as [H3 H5].
  unfold status_of, status_rule, lt_lit. cbn [option_map].
  rewrite H3, H5, !Z.ltb_antisym.
  destruct (30 <=? h), (50 <=? h); reflexivity.
Qed.

Lemma Warning_Sanction_of_decimal group h :
  Warning_Sanction_of group (Some (decimal2_as_float h))
  = warning_sanction_rule group h.
Proof.
  destruct (decimal2_thresholds h) as [H3 H5].
  unfold Warning_Sanction_of, warning_sanction_rule, lt_lit, ge_lit, eq_lit.
  cbn [option_map]. rewrite H3, H5, !Z.ltb_antisym.
  destruct (String.eqb group "Extra Large"), (30 <=? h), (50 <=? h); reflexivity.
Qed.

Lemma availability_percentage_of_zero available :
  availability_percentage_of available 0 = Ok None.
Proof. reflexivity. Qed.

Lemma availability_percentage_of_nonzero available total :
  total <> 0 ->
  availability_percentage_of available total
  = Ok (Some (decimal2_as_float (round2 (inject_Z available / inject_Z total)))).
Proof.
  intros H. unfold availability_percentage_of, divide.
  apply Z.eqb_neq in H. now rewrite H.
Qed.

(** In ANSI mode the same division would stop the job. *)
Lemma divide_ansi_zero l : divide true l 0 = Raise DivideByZero.
Proof. reflexivity. Qed.

Lemma calculate_initial_metrics_row_ok r :
  exists ap,
    availability_percentage_of (sql_size (available_size (product r)))
      (sql_size (total_sizes (product r))) = Ok ap
    /\ calculate_initial_metrics_row r
       = Ok {| sized := r;
               total_offered_items := sql_size (total_sizes (product r));
               available_items := sql_size (available_size (product r));
               availability_percentage := ap;
               status := status_of ap;
               Warning_Sanction := Warning_Sanction_of (size_group r) ap |}.
Proof.
  unfold calculate_initial_metrics_row.
  destruct (Z.eq_dec (sql_size (total_sizes (product r))) 0) as [E|E].
  - rewrite E. exists None. split; reflexivity.
  - rewrite (availability_percentage_of_nonzero _ _ E). eexists. split; reflexivity.
Qed.

(** C3: on every row the counts are the sizes of the two arrays and,
    the total not being zero, [availability_percentage] is the quotient
    rounded half up to hundredths, stored as a float, and [status] is
    [Sanction] below 0.30, [Warning] from 0.30 included to 0.50 excluded,
    [OK] otherwise; 3 out of 10 gives 0.30 and [Warning]. *)
Theorem availability_and_status (r : SizeRecord) :
  let total := sql_size (total_sizes (product r)) in
  let available := sql_size (available_size (product r)) in
  (exists m,
      calculate_initial_metrics_row r = Ok m
      /\ total_offered_items m = total
      /\ available_items m = available
      /\ (total <> 0 ->
          let h := round2 (inject_Z available / inject_Z total) in
          2 * Z.abs (100 * available - h * total) <= Z.abs total
          /\ availability_percentage m = Some (decimal2_as_float h)
          /\ status m = status_rule h))
  /\ round2 (inject_Z 3 / inject_Z 10) = 30
  /\ availability_percentage_of 3 10 = Ok (Some (decimal2_as_float 30))
  /\ status_of (Some (decimal2_as_float 30)) = "Warning".
Proof.
  intros total available. split; [|split; [|split]]; try reflexivity.
  destruct (calculate_initial_metrics_row_ok r) as (ap & Hap & Hrow).
  fold total available in Hap, Hrow.
  eexists. split; [exact Hrow|].
  cbn [total_offered_items available_items availability_percentage status].
  split; [reflexivity|]. split; [reflexivity|].
  intros Htotal. rewrite (availability_percentage_of_nonzero _ _ Htotal) in Hap.
  injection Hap as <-.
  split; [now apply round2_near|]. split; [reflexivity|]. apply status_of_decimal.
Qed.

Lemma availability_and_status_witness :
  sql_size (total_sizes (product three_of_ten_row)) <> 0
  /\ exists m,
      calculate_initial_metrics_row three_of_ten_row = Ok m
      /\ availability_percentage m = Some (decimal2_as_float 30)
      /\ status m = "Warning".
Proof.
  split; [discriminate|].
  destruct (availability_and_status three_of_ten_row) as [(m & Hm & _ & _ & H) _].
  exists m. split; [exact Hm|].
  destruct H as (_ & Hap & Hst); [discriminate|]. split; [exact Hap | exact Hst].
Defined.

(** C7: [Warning_Sanction] follows the two thresholds of [status] on the
    rows whose size group is [Extra Large] and is the empty string on
    every other row; [status] is computed whatever the size group, and
    the row keeps both columns. *)
Theorem warning_sanction_extra_large (r : SizeRecord) :
  let total := sql_size (total_sizes (product r)) in
  let available := sql_size (available_size (product r)) in
  exists m,
    calculate_initial_metrics_row r = Ok m
    /\ sized m = r
    /\ status m = status_of (availability_percentage m)
    /\ (size_group r <> "Extra Large" -> Warning_Sanction m = "")
    /\ (total <> 0 ->
        let h := round2 (inject_Z available / inject_Z total) in
        Warning_Sanction m = warning_sanction_rule (size_group r) h
        /\ status m = status_rule h).
Proof.
  intros total available.
  destruct (calculate_initial_metrics_row_ok r) as (ap & Hap & Hrow).
  fold total available in Hap, Hrow.
  eexists. split; [exact Hrow|].
  cbn [sized availability_percentage status Warning_Sanction].
  split; [reflexivity|]. split; [reflexivity|]. split.
  - intros Hgroup. apply String.eqb_neq in Hgroup.
    unfold Warning_Sanction_of, eq_lit. rewrite Hgroup.
    destruct ap as [v|]; cbn [lt_lit ge_lit option_map and3 case_when];
      repeat match goal with |- context [negb ?b] => destruct b end; reflexivity.
  - intros Htotal. rewrite (availability_percentage_of_nonzero _ _ Htotal) in Hap.
    injection Hap as <-.
    split; [apply Warning_Sanction_of_decimal | apply status_of_decimal].
Qed.

Lemma warning_sanction_extra_large_witness :
  sql_size (total_sizes (product three_of_ten_row)) <> 0
  /\ exists m,
      calculate_initial_metrics_row three_of_ten_row = Ok m
      /\ Warning_Sanction m = "Warning".
Proof.
  split; [discriminate|].
  destruct (warning_sanction_extra_large three_of_ten_row)
    as (m & Hm & _ & _ & _ & H).
  exists m. split; [exact Hm|]. destruct H as [Hw _]; [discriminate|]. exact Hw.
Defined.

(** C8, amended: with a total of zero the division gives NULL and no
    error: [availability_percentage] is absent, [status] falls through to
    [OK] and [Warning_Sanction] is empty. *)
Theorem zero_total_gives_null (available : Z) (group : string) :
  availability_percentage_of available 0 = Ok None
  /\ status_of None = "OK"
  /\ Warning_Sanction_of group None = "".
Proof.
  split; [reflexivity|]. split; [reflexivity|].
  unfold Warning_Sanction_of, eq_lit. now destruct (String.eqb group "Extra Large").
Qed.

(** C8 as worded fails: on a row whose [total_sizes] array is empty the
    metrics are computed and no error is raised. *)
Lemma zero_total_does_not_raise :
  sql_size (total_sizes (product no_size_row)) = 0
  /\ calculate_initial_metrics_row no_size_row
     = Ok {| sized := no_size_row;
             total_offered_items := 0;
             available_items := 1;
             availability_percentage := None;
             status := "OK";
             Warning_Sanction := "" |}
  /\ calculate_initial_metrics_row no_size_row <> Raise DivideByZero.
Proof. split; [reflexivity|]. split; [reflexivity | discriminate]. Qed.

(** ** Schema Assembler *)

Lemma order_by_with_ids {A} (df : list A) from :
  order_by (with_ids from df) = with_ids from df.
Proof.
  revert from. induction df as [|r rest IH]; intros from; [reflexivity|].
  cbn [with_ids order_by fold_right]. fold (order_by (with_ids (from + 1) rest)).
  rewrite IH. destruct rest as [|r' rest']; [reflexivity|].
  cbn [with_ids insert_by_key fst].
  now replace (from <? from + 1) with true by (symmetry; apply Z.ltb_lt; lia).
Qed.

Lemma map_snd_with_ids {A} (df : list A) from : map snd (with_ids from df) = df.
Proof.
  revert from. induction df as [|r rest IH]; intros from; [reflexivity|].
  cbn [with_ids map snd]. now rewrite IH.
Qed.

(** The window ordered on fresh increasing ids numbers the rows in the
    order of the frame. *)
Lemma with_row_number_positions {A} (df : list A) :
  with_row_number df = number_from 1 df.
Proof. unfold with_row_number. now rewrite order_by_with_ids, map_snd_with_ids. Qed.

Lemma number_from_thrice (df : list EnrichedRecord) n :
  Forall same_keys
    (map (fun '(r, p, t, s) =>
            {| enriched := r; product_id := p; retailer_id := t; size_id := s |})
       (number_from n (number_from n (number_from n df)))).
Proof.
  revert n. induction df as [|r rest IH]; intros n; [constructor|].
  cbn [number_from map]. constructor; [now split | apply IH].
Qed.

Lemma assign_keys_same (df : list EnrichedRecord) : Forall same_keys (assign_keys df).
Proof.
  unfold assign_keys. rewrite !with_row_number_positions. apply number_from_thrice.
Qed.

(** The shared sequence is 1, 2, .., one key per row. *)
Lemma assign_keys_dense (df : list EnrichedRecord) :
  map product_id (assign_keys df) = map Z.of_nat (seq 1 (length df)).
Proof.
  unfold assign_keys. rewrite !with_row_number_positions.
  change 1 with (Z.of_nat 1) at 1 2 3. generalize 1%nat.
  induction df as [|r rest IH]; intros n; [reflexivity|].
  cbn [number_from map length seq product_id]. f_equal.
  replace (Z.of_nat n + 1) with (Z.of_nat (S n)) by lia. apply IH.
Qed.

Lemma bind_ok {A B} (x : A) (k : A -> result B) : Ok x ≫= k = k x.
Proof. reflexivity. Qed.


(** The job on two products: the row of the size [s] of the bra is
    dropped, the two rows left are numbered 1 and 2. *)
Example process_data_sample :
  exists rows,
    process_data [one_size_product; bra_product] = Ok rows
    /\ map (fun k => size (sized (metrics (enriched k)))) rows = ["OneSize"; "32B"]
    /\ map product_id rows = [1; 2]
    /\ map size_id rows = [1; 2].
Proof. eexists. split; [reflexivity|]. repeat split. Qed.

(** * Further properties of the job *)

(** ** Splitting and joining the size columns *)

Lemma split_aux_length after_comma s :
  length (split_aux after_comma s).2 = count_commas s.
Proof.
  revert after_comma. induction s as [|c r IH]; intros b; [reflexivity|].
  cbn [split_aux count_commas].
  destruct (b && is_space c) eqn:Eb.
  - rewrite IH. destruct (Ascii.eqb c ",") eqn:Ec; [|reflexivity].
    apply Ascii.eqb_eq in Ec. subst c. apply andb_true_iff in Eb as [_ Eb].
    discriminate.
  - destruct (Ascii.eqb c ","); cbn [snd].
    + specialize (IH true). destruct (split_aux true r). cbn [length snd] in *.
      now rewrite IH.
    + specialize (IH false). destruct (split_aux false r). cbn [snd] in *.
      exact IH.
Qed.

(** X1: [split] gives one element more than the string has commas: it is
    never empty, and the empty string gives one empty element. *)
Theorem split_length (s : string) :
  length (split s) = S (count_commas s)
  /\ split s <> []
  /\ split "" = [""].
Proof.
  unfold split. pose proof (split_aux_length false s) as H.
  destruct (split_aux false s) as [t ts]. cbn [snd length] in *.
  split; [now rewrite H|]. split; [discriminate | reflexivity].
Qed.

Lemma split_aux_pieces after_comma s :
  no_comma (split_aux after_comma s).1 = true
  /\ (after_comma = true -> no_leading_space (split_aux after_comma s).1 = true)
  /\ Forall (fun t => no_comma t = true /\ no_leading_space t = true)
       (split_aux after_comma s).2.
Proof.
  revert after_comma. induction s as [|c r IH]; intros b.
  - cbn. auto.
  - cbn [split_aux]. destruct (b && is_space c) eqn:Eb;
      [apply andb_true_iff in Eb as [-> _]; apply IH|].
    destruct (Ascii.eqb c ",") eqn:Ec.
    + destruct (IH true) as (H1 & H2 & H3).
      destruct (split_aux true r) as [t ts]. cbn [fst snd] in *.
      repeat split; auto.
    + destruct (IH false) as (H1 & _ & H3).
      destruct (split_aux false r) as [t ts]. cbn [fst snd] in *.
      split; [|split; [|exact H3]].
      * unfold no_comma. cbn [all_class]. rewrite Ec. exact H1.
      * intros ->. cbn [no_leading_space]. cbn [andb] in Eb. now rewrite Eb.
Qed.

Lemma split_aux_piece after_comma t :
  no_comma t = true ->
  (after_comma = true -> no_leading_space t = true) ->
  split_aux after_comma t = (t, []).
Proof.
  revert after_comma. induction t as [|c r IH]; intros b Hc Hs; [reflexivity|].
  unfold no_comma in Hc. cbn [all_class] in Hc.
  apply andb_true_iff in Hc as [Hc Hr]. apply negb_true_iff in Hc.
  cbn [split_aux]. rewrite Hc.
  replace (b && is_space c) with false.
  2:{ destruct b; [|reflexivity]. specialize (Hs eq_refl). cbn in Hs.
      apply negb_true_iff in Hs. now rewrite Hs. }
  now rewrite (IH false Hr) by discriminate.
Qed.

Lemma split_aux_piece_comma after_comma t rest :
  no_comma t = true ->
  (after_comma = true -> no_leading_space t = true) ->
  split_aux after_comma (t ++ String "," rest)
  = (t, let '(u, us) := split_aux true rest in u :: us).
Proof.
  revert after_comma. induction t as [|c r IH]; intros b Hc Hs.
  - rewrite append_empty. cbn [split_aux]. now rewrite andb_false_r.
  - unfold no_comma in Hc. cbn [all_class] in Hc.
    apply andb_true_iff in Hc as [Hc Hr]. apply negb_true_iff in Hc.
    rewrite append_cons. cbn [split_aux]. rewrite Hc.
    replace (b && is_space c) with false.
    2:{ destruct b; [|reflexivity]. specialize (Hs eq_refl). cbn in Hs.
        apply negb_true_iff in Hs. now rewrite Hs. }
    now rewrite (IH false Hr) by discriminate.
Qed.

Lemma split_aux_concat_ws after_comma t ts :
  no_comma t = true ->
  (after_comma = true -> no_leading_space t = true) ->
  Forall (fun t => no_comma t = true /\ no_leading_space t = true) ts ->
  split_aux after_comma (concat_ws "," (t :: ts)) = (t, ts).
Proof.
  intros Hc Hs Hts. revert after_comma t Hc Hs.
  induction Hts as [|u us [Hu1 Hu2] Hus IH]; intros b t Hc Hs.
  - now apply split_aux_piece.
  - change (concat_ws "," (t :: u :: us))
      with (t ++ String "," (concat_ws "," (u :: us))).
    rewrite split_aux_piece_comma by assumption.
    now rewrite (IH true u Hu1) by auto.
Qed.

(** X2: lines 75 and 308: writing the array back with commas and
    splitting it again gives the same array. *)
Theorem split_concat_ws (s : string) :
  split (concat_ws "," (split s)) = split s.
Proof.
  unfold split. destruct (split_aux_pieces false s) as (H1 & _ & H3).
  destruct (split_aux false s) as [t ts]. cbn [fst snd] in *.
  rewrite split_aux_concat_ws; auto. discriminate.
Qed.

(** ** Stages that cannot stop the job *)

Lemma mapM_values {A B} (f : A -> result B) (g : A -> B) l :
  (forall x, In x l -> f x = Ok (g x)) -> mapM f l = Ok (map g l).
Proof.
  induction l as [|x rest IH]; intros H; [reflexivity|].
  cbn [mapM map]. rewrite (H x) by now left.
  rewrite bind_ok, IH by (intros; apply H; now right). reflexivity.
Qed.

Lemma mapM_ok_inv {A B} (f : A -> result B) l ys :
  mapM f l = Ok ys -> Forall2 (fun x y => f x = Ok y) l ys.
Proof.
  revert ys. induction l as [|x rest IH]; intros ys H.
  - injection H as <-. constructor.
  - cbn [mapM] in H. destruct (f x) as [y|] eqn:Ex; [|discriminate].
    rewrite bind_ok in H. destruct (mapM f rest) as [ys'|]; [|discriminate].
    rewrite bind_ok in H. injection H as <-. constructor; auto.
Qed.

Lemma mapM_raise_inv {A B} (f : A -> result B) l e :
  mapM f l = Raise e -> exists x, In x l /\ f x = Raise e.
Proof.
  induction l as [|x rest IH]; [discriminate|].
  cbn [mapM]. destruct (f x) as [y|e'] eqn:Ex.
  - rewrite bind_ok. destruct (mapM f rest) as [ys|e'']; [discriminate|].
    intros H. injection H as <-. destruct IH as (x' & Hin & Hx'); [reflexivity|].
    exists x'. split; [now right | exact Hx'].
  - intros H. injection H as <-. exists x. split; [now left | exact Ex].
Qed.

Lemma normalize_size_value p raw : normalize_size p raw = Ok (size_row p raw).
Proof.
  unfold normalize_size, size_row, size_number_of. now rewrite cast_int_digits.
Qed.

Lemma normalize_and_explode_sizes_value df :
  normalize_and_explode_sizes df = Ok (exploded df).
Proof.
  unfold normalize_and_explode_sizes, exploded.
  rewrite (mapM_values _ (fun p => map (size_row p) (explode (total_sizes p)))).
  - rewrite bind_ok. now rewrite flat_map_concat_map.
  - intros p _. apply mapM_values. intros raw _. apply normalize_size_value.
Qed.

Lemma calculate_initial_metrics_row_value r :
  calculate_initial_metrics_row r = Ok (metrics_row r).
Proof.
  unfold calculate_initial_metrics_row, metrics_row, percentage.
  unfold availability_percentage_of, divide, spark_sql_ansi_enabled.
  now destruct (sql_size (total_sizes (product r)) =? 0).
Qed.

Lemma calculate_initial_metrics_value df :
  calculate_initial_metrics df = Ok (map metrics_row df).
Proof.
  apply mapM_values. intros r _. apply calculate_initial_metrics_row_value.
Qed.

Lemma exploded_length df :
  length (exploded df)
  = list_sum (map (fun p => length (explode (total_sizes p))) df).
Proof.
  unfold exploded. induction df as [|p rest IH]; [reflexivity|].
  cbn [flat_map map list_sum]. now rewrite length_app, length_map, IH.
Qed.

Lemma exploded_sizes df :
  map size (exploded df)
  = flat_map (fun p => map clean_size (explode (total_sizes p))) df.
Proof.
  unfold exploded. induction df as [|p rest IH]; [reflexivity|].
  cbn [flat_map]. rewrite map_app, IH. f_equal.
  rewrite map_map. reflexivity.
Qed.

Lemma exploded_in df r :
  In r (exploded df) ->
  exists p raw,
    In p df /\ In raw (explode (total_sizes p)) /\ r = size_row p raw.
Proof.
  unfold exploded. intros (p & Hp & Hr)%in_flat_map.
  apply in_map_iff in Hr as (raw & <- & Hraw). eauto.
Qed.

Lemma exploded_pairs df :
  map (fun r => (product r, size r)) (exploded df)
  = flat_map (fun p => map (fun raw => (p, clean_size raw))
                           (explode (total_sizes p))) df.
Proof.
  unfold exploded. induction df as [|p rest IH]; [reflexivity|].
  cbn [flat_map]. rewrite map_app, IH. f_equal.
  rewrite map_map. reflexivity.
Qed.

(** X3: [normalize_and_explode_sizes] never stops the job; it yields one
    row per element of [total_sizes], in order, with the cleaned element
    as [size], every row carrying the product whose array the element
    came from, and no row for a product whose array is NULL or empty. *)
Theorem explode_one_row_per_size (df : list (Product (list string))) :
  exists rows,
    normalize_and_explode_sizes df = Ok rows
    /\ length rows
       = list_sum (map (fun p => length (explode (total_sizes p))) df)
    /\ map (fun r => (product r, size r)) rows
       = flat_map (fun p => map (fun raw => (p, clean_size raw))
                                (explode (total_sizes p))) df
    /\ map size rows
       = flat_map (fun p => map clean_size (explode (total_sizes p))) df
    /\ Forall (fun r => In (product r) df) rows.
Proof.
  exists (exploded df). split; [apply normalize_and_explode_sizes_value|].
  split; [apply exploded_length|]. split; [apply exploded_pairs|].
  split; [apply exploded_sizes|].
  apply List.Forall_forall. intros r (p & raw & Hp & _ & ->)%exploded_in. exact Hp.
Qed.

(** ** Rows of the Size Normalizer *)

Lemma digit_value_nonneg c : is_digit c = true -> 0 <= digit_value c.
Proof.
  unfold is_digit, in_range, digit_value.
  intros [H _]%andb_true_iff. apply N.leb_le in H. lia.
Qed.

Lemma decimal_acc_nonneg s acc :
  0 <= acc -> all_class is_digit s = true -> 0 <= decimal_acc acc s.
Proof.
  revert acc. induction s as [|c r IH]; intros acc Hacc; [now intros _|].
  cbn [all_class decimal_acc]. intros [Hc Hr]%andb_true_iff.
  apply IH; [|exact Hr]. pose proof (digit_value_nonneg c Hc). lia.
Qed.

Lemma int_of_digits_range digits n :
  all_class is_digit digits = true ->
  int_of_digits digits = Some n -> 0 <= n <= int_max.
Proof.
  intros Hd. unfold int_of_digits. destruct digits as [|c r]; [discriminate|].
  destruct (_ <=? int_max) eqn:E; [|discriminate].
  intros H. injection H as <-. apply Z.leb_le in E.
  split; [apply (decimal_acc_nonneg (String c r) 0); [lia | exact Hd] | exact E].
Qed.

Lemma size_group_of_range s n : In (size_group_of s n) size_groups.
Proof.
  unfold size_group_of, size_conditions, size_groups. cbn [map].
  rewrite !between_within, !when_some. cbn [coalesce].
  repeat match goal with |- context [if ?b then _ else _] => destruct b end;
    simpl; tauto.
Qed.

Lemma is_available_of_values available s :
  (is_available_of available s = 0 \/ is_available_of available s = 1)
  /\ (is_available_of available s = 1 -> In s (explode available)).
Proof.
  unfold is_available_of. destruct available as [l|]; [|now split; [left|]].
  destruct (existsb _ l) eqn:E; (split; [auto|]); [|discriminate].
  intros _. apply existsb_exists in E as (x & Hin & Hx).
  apply String.eqb_eq in Hx. now subst x.
Qed.

(** X4: every row of [normalize_and_explode_sizes] has a [size] of ASCII
    letters and digits only, a [size_number] that is NULL or between 0
    and 2147483647, an [is_available] of 0 or 1, which is 1 only for a
    size that [available_size] lists as it is, and one of the six size
    groups. *)
Theorem size_rows_wellformed (df : list (Product (list string))) :
  exists rows,
    normalize_and_explode_sizes df = Ok rows
    /\ Forall
         (fun r =>
            all_class is_alnum (size r) = true
            /\ match size_number r with
               | Some n => 0 <= n <= int_max
               | None => True
               end
            /\ (is_available r = 0 \/ is_available r = 1)
            /\ (is_available r = 1 ->
                In (size r) (explode (available_size (product r))))
            /\ In (size_group r) size_groups)
         rows.
Proof.
  exists (exploded df). split; [apply normalize_and_explode_sizes_value|].
  apply List.Forall_forall. intros r (p & raw & _ & _ & ->)%exploded_in.
  cbn [size_row size size_number is_available size_group product].
  split; [apply clean_size_alnum|]. split.
  - destruct (int_of_digits _) as [n|] eqn:E; [|exact I].
    eapply int_of_digits_range; [|exact E].
    unfold extract_digits. apply take_class_all.
  - split; [apply is_available_of_values|].
    split; [apply is_available_of_values | apply size_group_of_range].
Qed.

(** ** Exclusion Filter *)

Lemma retained_cases (e : EnrichedRecord) :
  retained e = true
  <-> ~ (In (size (sized (metrics e))) exclude_sizes
         /\ (category e = None \/ category e = Some "Bras"
             \/ category e = Some "Bralette")).
Proof.
  unfold retained, isin, eq_col.
  set (s := size (sized (metrics e))).
  destruct (existsb (String.eqb s) exclude_sizes) eqn:Ein.
  - assert (Hin : In s exclude_sizes).
    { apply existsb_exists in Ein as (x & Hx & Heq).
      apply String.eqb_eq in Heq. now subst x. }
    destruct (category e) as [c|]; cbn [option_map].
    + destruct (String.eqb c "Bras") eqn:E1; cbn.
      * apply String.eqb_eq in E1. subst c. split; [discriminate|].
        intros H. exfalso. apply H. auto.
      * destruct (String.eqb c "Bralette") eqn:E2; cbn.
        -- apply String.eqb_eq in E2. subst c. split; [discriminate|].
           intros H. exfalso. apply H. auto.
        -- split; [|reflexivity]. intros _ [_ [H|[H|H]]]; [discriminate| |];
             injection H as ->; [rewrite String.eqb_refl in E1
                                | rewrite String.eqb_refl in E2]; discriminate.
    + cbn. split; [discriminate|]. intros H. exfalso. apply H. auto.
  - assert (Hin : ~ In s exclude_sizes).
    { intros H. apply not_true_iff_false in Ein. apply Ein.
      apply existsb_exists. exists s. split; [exact H | apply String.eqb_refl]. }
    replace (match _ with Some true => true | _ => false end) with true.
    + split; [|reflexivity]. intros _ [H _]. contradiction.
    + destruct (category e) as [c|]; cbn [option_map]; [|reflexivity].
      now destruct (String.eqb c "Bras"), (String.eqb c "Bralette").
Qed.

(** X5: the filter of lines 261-264 keeps a row unless its [size] is one
    of [exclude_sizes] and its category is [Bras], [Bralette] or NULL:
    on a NULL category the condition is NULL, and the row goes too. *)
Theorem retained_iff (e : EnrichedRecord) :
  retained e = true
  <-> ~ (In (size (sized (metrics e))) exclude_sizes
         /\ (category e = None \/ category e = Some "Bras"
             \/ category e = Some "Bralette")).
Proof. apply retained_cases. Qed.

Lemma exclude_sizes_lowercase :
  Forall (fun x => all_class (fun c => negb (is_upper c)) x = true) exclude_sizes.
Proof. repeat constructor. Qed.

(** X6: the membership test of the filter is exact on case: a row whose
    [size] has a capital letter, such as [S] or [XL], is kept whatever
    its category. *)
Theorem capital_size_retained (e : EnrichedRecord) :
  all_class (fun c => negb (is_upper c)) (size (sized (metrics e))) = false ->
  retained e = true.
Proof.
  intros Hupper. apply retained_cases. intros [Hin _].
  pose proof exclude_sizes_lowercase as H.
  rewrite List.Forall_forall in H. specialize (H _ Hin). congruence.
Qed.

Lemma capital_size_retained_witness :
  all_class (fun c => negb (is_upper c)) (size (sized (metrics xl_bra_row))) = false
  /\ category xl_bra_row = Some "Bras"
  /\ retained xl_bra_row = true.
Proof.
  split; [reflexivity|]. split; [reflexivity|].
  apply (capital_size_retained xl_bra_row). reflexivity.
Defined.

(** ** The job as a whole *)

Lemma process_data_stages raw :
  process_data raw
  = mapM enrich (job_metrics raw)
    ≫= fun rows => Ok (assign_keys (List.filter retained rows)).
Proof.
  unfold process_data, job_metrics.
  now rewrite normalize_and_explode_sizes_value, bind_ok,
    calculate_initial_metrics_value, bind_ok.
Qed.

Lemma initial_data_clean_in raw p : In p (initial_data_clean raw) <-> In p raw.
Proof.
  unfold initial_data_clean. rewrite <- !list_elem_of_In.
  apply elem_of_remove_dups.
Qed.

Lemma job_metrics_in raw m :
  In m (job_metrics raw) ->
  exists p piece,
    In p raw
    /\ In piece (explode (total_sizes (ensure_array_columns p)))
    /\ m = metrics_row (size_row (ensure_array_columns p) piece).
Proof.
  unfold job_metrics. intros (r & <- & Hr)%in_map_iff.
  apply exploded_in in Hr as (q & piece & Hq & Hpiece & ->).
  apply in_map_iff in Hq as (p & <- & Hp).
  exists p, piece. split; [|auto]. now apply initial_data_clean_in.
Qed.

Lemma enrich_inv m e :
  enrich m = Ok e ->
  metrics e = m
  /\ category e = assign_category_col (product_name (product (sized m))) None
  /\ brand_name (product (sized m)) <> None.
Proof.
  unfold enrich, brand_columns, map_brand.
  destruct (brand_name (product (sized m))) as [b|]; [|discriminate].
  cbn [option_map]. destruct (brand_mapping !! _) as [pair|];
    rewrite bind_ok; intros H; injection H as <-; auto.
Qed.

Lemma enrich_brand m b :
  brand_name (product (sized m)) = Some b -> exists e, enrich m = Ok e.
Proof.
  unfold enrich, brand_columns, map_brand. intros ->. cbn [option_map].
  destruct (brand_mapping !! _) as [pair|]; rewrite bind_ok; eauto.
Qed.

Lemma enrich_no_brand m :
  brand_name (product (sized m)) = None -> enrich m = Raise AttributeError.
Proof. unfold enrich, brand_columns, map_brand. now intros ->. Qed.

Lemma enrich_raises m err : enrich m = Raise err -> err = AttributeError.
Proof.
  unfold enrich, brand_columns, map_brand.
  destruct (brand_name (product (sized m))) as [b|]; cbn [option_map].
  - destruct (brand_mapping !! _) as [pair|]; rewrite bind_ok; discriminate.
  - intros H. now injection H.
Qed.

Lemma Forall2_in_r {A B} (P : A -> B -> Prop) l k y :
  Forall2 P l k -> In y k -> exists x, In x l /\ P x y.
Proof.
  induction 1 as [|x y' l k Hxy _ IH]; [contradiction|].
  intros [<-|Hin]; [exists x; split; [now left | exact Hxy]|].
  destruct (IH Hin) as (x' & Hx' & HP). exists x'. split; [now right | exact HP].
Qed.

Lemma assign_keys_enriched df : map enriched (assign_keys df) = df.
Proof.
  unfold assign_keys. rewrite !with_row_number_positions. generalize 1.
  induction df as [|r rest IH]; intros n; [reflexivity|].
  cbn [number_from map enriched]. now rewrite IH.
Qed.

(** Every row of the result comes from a size of a product of the batch
    and passed the filter. *)
Lemma process_data_rows raw rows k :
  process_data raw = Ok rows -> In k rows ->
  exists p piece,
    In p raw
    /\ In piece (explode (total_sizes (ensure_array_columns p)))
    /\ metrics (enriched k) = metrics_row (size_row (ensure_array_columns p) piece)
    /\ enrich (metrics (enriched k)) = Ok (enriched k)
    /\ retained (enriched k) = true.
Proof.
  rewrite process_data_stages.
  destruct (mapM enrich (job_metrics raw)) as [es|] eqn:Ees; [|discriminate].
  rewrite bind_ok. intros H Hk. injection H as <-.
  assert (He : In (enriched k) (List.filter retained es)).
  { rewrite <- (assign_keys_enriched (List.filter retained es)). now apply in_map. }
  apply filter_In in He as [He Hret].
  apply mapM_ok_inv in Ees.
  destruct (Forall2_in_r _ _ _ _ Ees He) as (m & Hm & Hem).
  destruct (enrich_inv _ _ Hem) as (Hmet & _). subst m.
  destruct (job_metrics_in _ _ Hm) as (p & piece & Hp & Hpiece & Heq).
  exists p, piece. auto.
Qed.

Lemma split_nonempty s : exists piece rest, split s = piece :: rest.
Proof. unfold split. destruct (split_aux false s) as [t ts]. eauto. Qed.

Lemma exploded_pieces (p : Product string) piece :
  In piece (explode (total_sizes (ensure_array_columns p))) ->
  exists s, total_sizes p = Some s /\ In piece (split s).
Proof.
  cbn [ensure_array_columns total_sizes].
  destruct (total_sizes p) as [s|]; [|contradiction]. eauto.
Qed.

Lemma percentage_defined available total :
  total <> 0 -> exists v, percentage available total = Some v.
Proof.
  intros H. unfold percentage. apply Z.eqb_neq in H. rewrite H. eauto.
Qed.

Lemma category_of_name name :
  exists label,
    assign_category_col (Some name) None = Some label
    /\ In label category_labels.
Proof.
  unfold assign_category_col. rewrite assign_loop_first_match.
  unfold first_match, category_patterns, category_labels.
  cbn [List.find fst snd rlike].
  repeat match goal with |- context [if ?b then _ else _] => destruct b end;
    eexists; (split; [reflexivity|]); simpl; tauto.
Qed.

Lemma category_without_name category0 :
  assign_category_col None category0 = category0.
Proof.
  unfold assign_category_col.
  induction category_patterns as [|rule rest IH]; [reflexivity|].
  cbn [fold_left]. replace (category_step None category0 rule) with category0;
    [exact IH|].
  unfold category_step. cbn [option_map]. now destruct category0.
Qed.

(** X7: the category of a row with a product name is one of the seven
    labels of the rules, so never [Bralette], the second category that
    the filter of line 263 tests; without a product name no rule applies,
    the last one included, and the category stays as it was, NULL in the
    job. *)
Theorem category_values (name : string) (category0 : option string) :
  (exists label,
      assign_category_col (Some name) None = Some label
      /\ In label category_labels
      /\ label <> "Bralette")
  /\ assign_category_col None category0 = category0.
Proof.
  split; [|apply category_without_name].
  destruct (category_of_name name) as (label & Heq & Hin).
  exists label. split; [exact Heq|]. split; [exact Hin|].
  intros ->. cbn in Hin. intuition discriminate.
Qed.

(** X8: in the result of the job every row has a [total_offered_items] of
    at least 1, the length of the array its [size] was taken from, and an
    [availability_percentage] that is not NULL: the division by zero of
    line 126 does not arise. *)
Theorem job_total_offered_positive (raw : list (Product string))
    (rows : list KeyedRecord) :
  process_data raw = Ok rows ->
  Forall
    (fun k =>
       let m := metrics (enriched k) in
       1 <= total_offered_items m
       /\ (exists v, availability_percentage m = Some v)
       /\ exists sizes,
           total_sizes (product (sized m)) = Some sizes
           /\ total_offered_items m = Z.of_nat (length sizes)
           /\ In (size (sized m)) (map clean_size sizes))
    rows.
Proof.
  intros Hjob. apply List.Forall_forall. intros k Hk.
  destruct (process_data_rows _ _ _ Hjob Hk) as (p & piece & _ & Hpiece & Hm & _).
  destruct (exploded_pieces _ _ Hpiece) as (s & Hs & Hin).
  cbv zeta. rewrite Hm.
  cbn [metrics_row size_row total_offered_items availability_percentage sized
       product size ensure_array_columns total_sizes].
  rewrite Hs. cbn [option_map sql_size].
  destruct (split_nonempty s) as (t & ts & Hsplit).
  assert (Hlen : 1 <= Z.of_nat (length (split s)))
    by (rewrite Hsplit; cbn [length]; lia).
  split; [exact Hlen|]. split; [apply percentage_defined; lia|].
  exists (split s). split; [reflexivity|]. split; [reflexivity|].
  now apply in_map.
Qed.

Lemma job_total_offered_positive_witness :
  exists rows,
    process_data [one_size_product; bra_product] = Ok rows
    /\ Forall (fun k => 1 <= total_offered_items (metrics (enriched k))) rows.
Proof.
  eexists. split; [reflexivity|].
  eapply List.Forall_impl;
    [|apply (job_total_offered_positive [one_size_product; bra_product] _ eq_refl)].
  intros k H. apply H.
Defined.

(** X9: in the result of the job a row whose [size] is one of
    [exclude_sizes] belongs to a product that has a name and a category
    other than [Bras]. *)
Theorem job_excluded_sizes (raw : list (Product string))
    (rows : list KeyedRecord) :
  process_data raw = Ok rows ->
  Forall
    (fun k =>
       In (size (sized (metrics (enriched k)))) exclude_sizes ->
       exists label,
         category (enriched k) = Some label
         /\ In label category_labels
         /\ label <> "Bras"
         /\ product_name (product (sized (metrics (enriched k)))) <> None)
    rows.
Proof.
  intros Hjob. apply List.Forall_forall. intros k Hk Hin.
  destruct (process_data_rows _ _ _ Hjob Hk) as (p & piece & _ & _ & _ & He & Hret).
  apply enrich_inv in He as (_ & Hcat & _).
  apply retained_cases in Hret.
  destruct (product_name (product (sized (metrics (enriched k))))) as [name|].
  - destruct (category_of_name name) as (label & Heq & Hlabel).
    exists label. rewrite Hcat. split; [exact Heq|]. split; [exact Hlabel|].
    split; [|discriminate]. intros ->. apply Hret. split; [exact Hin|].
    right. left. now rewrite Hcat.
  - exfalso. apply Hret. split; [exact Hin|]. left.
    rewrite Hcat. apply category_without_name.
Qed.

Lemma job_excluded_sizes_witness :
  exists rows,
    process_data [panty_product] = Ok rows
    /\ Forall
         (fun k =>
            exists label, category (enriched k) = Some label /\ label <> "Bras")
         rows.
Proof.
  eexists. split; [reflexivity|].
  pose proof (job_excluded_sizes [panty_product] _ eq_refl) as H.
  rewrite List.Forall_forall in H. apply List.Forall_forall.
  intros k Hk. destruct (H k Hk) as (label & Hl & _ & Hne & _).
  - destruct Hk as [<-|[<-|[]]]; vm_compute; tauto.
  - eauto.
Defined.

(** X10: the only error that can stop the job is the [AttributeError] of
    [None.lower()] in [map_brand]; when every product that has a
    [total_sizes] string has a brand, the job returns its rows. *)
Theorem job_returns_with_brands (raw : list (Product string)) :
  (forall err, process_data raw = Raise err -> err = AttributeError)
  /\ ((forall p, In p raw -> total_sizes p <> None -> brand_name p <> None) ->
      exists rows, process_data raw = Ok rows).
Proof.
  rewrite process_data_stages.
  destruct (mapM enrich (job_metrics raw)) as [es|err] eqn:E.
  - rewrite bind_ok. split; [discriminate | eauto].
  - apply mapM_raise_inv in E as (m & Hm & Hraise).
    pose proof (enrich_raises _ _ Hraise) as ->.
    split; [intros err H; now injection H|]. intros Hbrands. exfalso.
    destruct (job_metrics_in _ _ Hm) as (p & piece & Hp & Hpiece & ->).
    destruct (exploded_pieces _ _ Hpiece) as (s & Hs & _).
    destruct (brand_name p) as [b|] eqn:Eb.
    + destruct (enrich_brand
                  (metrics_row (size_row (ensure_array_columns p) piece)) b)
        as (e & He); [exact Eb|]. congruence.
    + apply (Hbrands p Hp); [now rewrite Hs | exact Eb].
Qed.

Lemma job_returns_with_brands_witness :
  exists rows, process_data [one_size_product; bra_product] = Ok rows.
Proof.
  apply (job_returns_with_brands [one_size_product; bra_product]).
  intros p [<-|[<-|[]]] _; discriminate.
Defined.

(** ** Band and cup *)

Lemma digit_not_alpha c : is_digit c = true -> is_alpha c = false.
Proof. by_cases_on_char c. Qed.

Lemma alpha_not_digit c : is_alpha c = true -> is_digit c = false.
Proof. by_cases_on_char c. Qed.

Lemma take_digits_of_letters l :
  all_class is_alpha l = true -> take_class is_digit l = "".
Proof.
  destruct l as [|c r]; [reflexivity|]. cbn [all_class take_class].
  intros [Hc _]%andb_true_iff. now rewrite (alpha_not_digit c Hc).
Qed.

Lemma extract_digits_band digits letters :
  all_class is_digit digits = true -> digits <> "" ->
  all_class is_alpha letters = true ->
  extract_digits (digits ++ letters) = digits.
Proof.
  intros Hd Hne Hl. unfold extract_digits.
  destruct digits as [|c r]; [contradiction|].
  assert (Hc : is_digit c = true)
    by (cbn [all_class] in Hd; now apply andb_true_iff in Hd).
  rewrite append_cons. cbn [drop_class]. rewrite Hc. cbn [negb].
  rewrite <- append_cons, take_class_app by exact Hd.
  now rewrite take_digits_of_letters, append_empty_r.
Qed.

Lemma drop_class_whole (p : ascii -> bool) s :
  all_class p s = true -> drop_class p s = "".
Proof.
  induction s as [|c r IH]; [reflexivity|]. cbn [all_class drop_class].
  intros [Hc Hr]%andb_true_iff. rewrite Hc. auto.
Qed.

Lemma extract_letters_cup digits letters :
  all_class is_digit digits = true ->
  all_class is_alpha letters = true ->
  extract_trailing_letters (digits ++ letters) = letters.
Proof.
  intros Hd Hl. induction digits as [|c r IH].
  - rewrite append_empty. destruct letters as [|a rest]; [reflexivity|].
    cbn [extract_trailing_letters]. unfold class_plus_dollar.
    rewrite (take_class_id _ _ Hl).
    now rewrite (drop_class_whole _ _ Hl).
  - cbn [all_class] in Hd. apply andb_true_iff in Hd as [Hc Hr].
    rewrite append_cons. cbn [extract_trailing_letters].
    unfold class_plus_dollar. cbn [take_class].
    rewrite (digit_not_alpha c Hc). now apply IH.
Qed.

(** X11: a token made of a run of digits followed by a run of letters,
    such as [34DD], is left as it is by the cleaning and is taken apart
    exactly: [size_number] is the value of the digits when it fits 32
    bits, [size_letter] is the letters. *)
Theorem band_and_cup (digits letters : string) :
  all_class is_digit digits = true -> digits <> "" ->
  all_class is_alpha letters = true ->
  decimal_acc 0 digits <= int_max ->
  clean_size (digits ++ letters) = digits ++ letters
  /\ size_number_of (digits ++ letters) = Ok (Some (decimal_acc 0 digits))
  /\ size_letter_of (digits ++ letters) = letters.
Proof.
  intros Hd Hne Hl Hmax. split; [|split].
  - apply clean_size_fixed. rewrite all_class_app. apply andb_true_iff. split.
    + eapply all_class_impl; [|exact Hd]. intros c Hc. unfold is_alnum.
      rewrite Hc. apply orb_true_r.
    + eapply all_class_impl; [|exact Hl]. intros c Hc. unfold is_alnum.
      now rewrite Hc.
  - unfold size_number_of. rewrite extract_digits_band by assumption.
    rewrite cast_int_digits. destruct digits as [|c r]; [contradiction|].
    apply Z.leb_le in Hmax. now rewrite Hmax.
  - apply extract_letters_cup; assumption.
Qed.

Lemma band_and_cup_witness :
  size_number_of "34DD" = Ok (Some 34) /\ size_letter_of "34DD" = "DD".
Proof.
  pose proof (band_and_cup "34" "DD") as H.
  destruct H as (_ & Hn & Hl);
    [reflexivity | discriminate | reflexivity | discriminate |].
  split; [exact Hn | exact Hl].
Defined.

(** ** The two status columns *)

(** X12: whatever the percentage, NULL included, [Warning_Sanction] is the
    [status] of the row when the size group is [Extra Large] and the
    status is not [OK], and the empty string otherwise. *)
Theorem warning_sanction_from_status (group : string) (ap : option Q) :
  Warning_Sanction_of group ap
  = if String.eqb group "Extra Large"
    then (if String.eqb (status_of ap) "OK" then "" else status_of ap)
    else "".
Proof.
  unfold Warning_Sanction_of, status_of, lt_lit, ge_lit, eq_lit.
  destruct ap as [v|]; cbn [option_map].
  - destruct (String.eqb group "Extra Large"),
      (Qle_bool (to_double (3 # 10)) v), (Qle_bool (to_double (5 # 10)) v);
      reflexivity.
  - now destruct (String.eqb group "Extra Large").
Qed.

(** ** Bounds of the percentage *)

Lemma decimal2_unit_interval :
  forallb (fun k => Qle_bool 0 (decimal2_as_float (Z.of_nat k))
                    && Qle_bool (decimal2_as_float (Z.of_nat k)) 1)
    (seq 0 101) = true.
Proof. vm_compute. reflexivity. Qed.

(** X13: on a row whose product has at least one size and no more
    available sizes than sizes, the percentage is a number of hundredths
    between 0 and 100, stored as a float between 0 and 1; with nothing
    available the status is [Sanction], with everything available it is
    [OK]. *)
Theorem percentage_bounds (r : SizeRecord) (sizes available : list string) :
  total_sizes (product r) = Some sizes ->
  available_size (product r) = Some available ->
  sizes <> [] ->
  (length available <= length sizes)%nat ->
  exists m h v,
    calculate_initial_metrics_row r = Ok m
    /\ 0 <= h <= 100
    /\ availability_percentage m = Some v
    /\ v = decimal2_as_float h
    /\ (0 <= v <= 1)%Q
    /\ (available = [] -> status m = "Sanction")
    /\ (length available = length sizes -> status m = "OK").
Proof.
  intros Hs Ha Hne Hle.
  set (t := Z.of_nat (length sizes)). set (a := Z.of_nat (length available)).
  assert (Ht : 0 < t) by (unfold t; destruct sizes; [contradiction|cbn; lia]).
  assert (Hat : 0 <= a <= t) by (unfold a, t; lia).
  set (h := round2 (inject_Z a / inject_Z t)).
  pose proof (round2_near a t ltac:(lia)) as Hnear. fold h in Hnear.
  assert (Hh : 0 <= h <= 100) by nia.
  exists (metrics_row r), h, (decimal2_as_float h).
  split; [apply calculate_initial_metrics_row_value|].
  split; [exact Hh|].
  assert (Hap : availability_percentage (metrics_row r) = Some (decimal2_as_float h)).
  { cbn [metrics_row availability_percentage]. rewrite Hs, Ha. cbn [sql_size].
    fold t a. unfold percentage.
    replace (t =? 0) with false by (symmetry; apply Z.eqb_neq; lia). reflexivity. }
  split; [exact Hap|]. split; [reflexivity|]. split; [|split].
  - pose proof decimal2_unit_interval as H. rewrite forallb_forall in H.
    specialize (H (Z.to_nat h)). rewrite Z2Nat.id in H by lia.
    destruct (andb_prop _ _ (H ltac:(apply in_seq; lia))) as [H0 H1].
    split; now apply Qle_bool_iff.
  - intros ->. cbn [metrics_row status]. rewrite Hs, Ha. cbn [sql_size].
    fold t. unfold percentage.
    replace (t =? 0) with false by (symmetry; apply Z.eqb_neq; lia).
    change (Z.of_nat (length [])) with 0.
    assert (E : round2 (inject_Z 0 / inject_Z t) = 0).
    { pose proof (round2_near 0 t ltac:(lia)). nia. }
    rewrite E. apply status_of_decimal.
  - intros Hall. cbn [metrics_row status]. rewrite Hs, Ha. cbn [sql_size].
    fold t a. unfold percentage.
    replace (t =? 0) with false by (symmetry; apply Z.eqb_neq; lia).
    fold h. rewrite status_of_decimal.
    assert (E : h = 100) by (assert (a = t) by (unfold a, t; lia); nia).
    now rewrite E.
Qed.

Lemma percentage_bounds_witness :
  exists m v,
    calculate_initial_metrics_row three_of_ten_row = Ok m
    /\ availability_percentage m = Some v
    /\ (0 <= v <= 1)%Q.
Proof.
  destruct (percentage_bounds three_of_ten_row
              ["42A"; "42B"; "42C"; "42D"; "44A"; "44B"; "44C"; "44D"; "46A"; "46B"]
              ["42A"; "44B"; "46A"])
    as (m & h & v & Hm & _ & Hv & _ & Hb & _);
    [reflexivity | reflexivity | discriminate | cbn; lia |].
  exists m, v. auto.
Defined.

(** ** Keys and dimensions *)

Lemma map_keys_equal df :
  map retailer_id (assign_keys df) = map product_id (assign_keys df)
  /\ map size_id (assign_keys df) = map product_id (assign_keys df).
Proof.
  pose proof (assign_keys_same df) as H.
  induction H as [|k rest [H1 H2] _ [IH1 IH2]]; [now split|].
  cbn [map]. rewrite IH1, IH2. split; f_equal; congruence.
Qed.

Lemma NoDup_positions n len : NoDup (map Z.of_nat (seq n len)).
Proof.
  apply NoDup_fmap_2; [|apply NoDup_ListNoDup, List.seq_NoDup].
  intros x y. apply Nat2Z.inj.
Qed.

(** X14: each of the three key columns is 1, 2, .., one number per row of
    the filtered frame, without gap or repeat. *)
Theorem keys_dense (df : list EnrichedRecord) :
  map product_id (assign_keys df) = map Z.of_nat (seq 1 (length df))
  /\ map retailer_id (assign_keys df) = map Z.of_nat (seq 1 (length df))
  /\ map size_id (assign_keys df) = map Z.of_nat (seq 1 (length df))
  /\ NoDup (map product_id (assign_keys df))
  /\ length (assign_keys df) = length df.
Proof.
  destruct (map_keys_equal df) as [Hr Hs].
  rewrite Hr, Hs, assign_keys_dense.
  repeat split; try reflexivity; [apply NoDup_positions|].
  rewrite <- (length_map enriched), assign_keys_enriched. reflexivity.
Qed.

Lemma remove_dups_NoDup {A} `{EqDecision A} (l : list A) :
  NoDup l -> remove_dups l = l.
Proof.
  induction 1 as [|x l Hx _ IH]; [reflexivity|].
  cbn [remove_dups]. destruct (decide_rel elem_of x l); [contradiction|].
  now rewrite IH.
Qed.

Lemma distinct_keyed {A B} `{EqDecision B} (key : B -> Z) (f : A -> B)
    (df : list A) :
  NoDup (map (fun k => key (f k)) df) -> distinct (map f df) = map f df.
Proof.
  intros H. apply remove_dups_NoDup.
  apply (NoDup_fmap_1 key). now rewrite <- list_fmap_compose.
Qed.

(** X15: the two dimensions carry the key of the row, which no two rows
    share, so [distinct] removes nothing: each dimension has one row per
    row of the filtered frame, whatever the retailers and the sizes. *)
Theorem dimensions_keep_every_row (df : list EnrichedRecord) :
  dim_retailer (assign_keys df)
  = map (fun k => (retailer (product (sized (metrics (enriched k)))),
                   retailer_id k)) (assign_keys df)
  /\ length (dim_retailer (assign_keys df)) = length df
  /\ length (dim_size (assign_keys df)) = length df.
Proof.
  destruct (map_keys_equal df) as [Hr Hs].
  pose proof (NoDup_positions 1 (length df)) as Hnd.
  rewrite <- assign_keys_dense in Hnd.
  assert (Hlen : length (assign_keys df) = length df)
    by (rewrite <- (length_map enriched), assign_keys_enriched; reflexivity).
  unfold dim_retailer, dim_size.
  rewrite (distinct_keyed snd).
  2:{ change (NoDup (map retailer_id (assign_keys df))). now rewrite Hr. }
  rewrite (distinct_keyed (fun t => t.1.2)).
  2:{ change (NoDup (map size_id (assign_keys df))). now rewrite Hs. }
  rewrite !length_map. auto.
Qed.

(** ** Size groups outside the predefined ones *)

Lemma distinct_in {A} `{EqDecision A} (l : list A) x :
  In x (distinct l) <-> In x l.
Proof.
  unfold distinct. rewrite <- !list_elem_of_In. apply elem_of_remove_dups.
Qed.

Lemma unusual_in rows g :
  In g (unusual_sizes rows) ->
  (exists k, In k rows /\ size_group (sized (metrics (enriched k))) = g)
  /\ ~ In g predefined_groups.
Proof.
  unfold unusual_sizes. intros [Hin Hneg]%filter_In.
  apply (proj1 (distinct_in _ _)) in Hin.
  apply in_map_iff in Hin as (k & Hk & Hkin). split; [eauto|].
  intros Hpre. apply negb_true_iff, not_true_iff_false in Hneg. apply Hneg.
  apply existsb_exists. exists g. split; [exact Hpre | apply String.eqb_refl].
Qed.

(** X16: the list of size groups outside the predefined ones that the job
    prints is empty or holds the single value [Not Bras]. *)
Theorem unusual_sizes_of_job (raw : list (Product string))
    (rows : list KeyedRecord) :
  process_data raw = Ok rows ->
  unusual_sizes rows = [] \/ unusual_sizes rows = ["Not Bras"].
Proof.
  intros Hjob.
  assert (Hall : forall g, In g (unusual_sizes rows) -> g = "Not Bras").
  { intros g [(k & Hk & <-) Hpre]%unusual_in.
    destruct (process_data_rows _ _ _ Hjob Hk) as (p & piece & _ & _ & Hm & _).
    rewrite Hm in *. cbn [metrics_row sized size_row size_group] in *.
    pose proof (size_group_of_range (clean_size piece)
                  (int_of_digits (extract_digits (clean_size piece)))) as Hg.
    generalize dependent (size_group_of (clean_size piece)
                            (int_of_digits (extract_digits (clean_size piece)))).
    intros g Hpre Hg. unfold size_groups in Hg. unfold predefined_groups in Hpre.
    cbn [In] in Hg, Hpre. intuition congruence. }
  assert (Hnd : NoDup (unusual_sizes rows)).
  { unfold unusual_sizes, distinct. apply NoDup_ListNoDup, List.NoDup_filter.
    apply NoDup_ListNoDup, NoDup_remove_dups. }
  destruct (unusual_sizes rows) as [|g [|g' rest]]; [now left| |].
  - right. f_equal. apply Hall. now left.
  - exfalso. rewrite (Hall g) in Hnd by (now left).
    rewrite (Hall g') in Hnd by (right; now left).
    apply NoDup_cons in Hnd as [Hnot _]. apply Hnot. now left.
Qed.

Lemma unusual_sizes_of_job_witness :
  exists rows,
    process_data [panty_product] = Ok rows
    /\ (unusual_sizes rows = [] \/ unusual_sizes rows = ["Not Bras"]).
Proof.
  eexists. split; [reflexivity|].
  apply (unusual_sizes_of_job [panty_product] _ eq_refl).
Defined.

(** ** A rule that never decides *)

Lemma letters_SMLX c : one_of "SMLXsmlx" c = true -> is_alpha c = true.
Proof. by_cases_on_char c. Qed.

(** X17: on a cleaned token the fifth condition of [size_conditions], the
    letters S, M, L and X, never decides: the seventh gives the same
    group to the same tokens, and the list without the fifth condition
    classifies every token alike. *)
Theorem fifth_condition_redundant (raw : string) (n : option Z) :
  let tok := clean_size raw in
  let conditions := size_conditions tok n in
  size_group_of tok n
  = coalesce (map (fun '(cond, group) => when cond group)
                (firstn 4 conditions ++ skipn 5 conditions))
      "Unknown".
Proof.
  intros tok conditions. pose proof (clean_size_alnum raw) as Halnum.
  fold tok in Halnum. unfold conditions, size_group_of, size_conditions.
  cbn [firstn skipn app map].
  rewrite !between_within, !when_some.
  rewrite (rlike_anchored_class_alnum _ _ tok class_SMLX Halnum).
  rewrite (rlike_anchored_class_alnum _ _ tok class_A_Z Halnum).
  destruct (made_of (one_of "SMLXsmlx") tok) eqn:E; [|reflexivity].
  assert (Hl : made_of is_alpha tok = true).
  { unfold made_of in *. apply andb_true_iff in E as [E1 E2]. rewrite E1.
    cbn [andb]. eapply all_class_impl; [apply letters_SMLX | exact E2]. }
  rewrite Hl. now destruct (rlike_anchored_class _ tok).
Qed.

(** ** Color Classifier *)

Lemma lower_append a b : lower (a ++ b) = lower a ++ lower b.
Proof.
  induction a as [|c r IH]; [reflexivity|].
  rewrite append_cons. cbn [lower]. now rewrite IH, append_cons.
Qed.

Lemma starts_with_append needle post : starts_with needle (needle ++ post) = true.
Proof.
  induction needle as [|c r IH]; [reflexivity|].
  rewrite append_cons. cbn [starts_with]. now rewrite Ascii.eqb_refl, IH.
Qed.

Lemma contains_append needle pre post :
  contains needle (pre ++ needle ++ post) = true.
Proof.
  induction pre as [|c r IH].
  - rewrite append_empty. destruct (needle ++ post) eqn:E;
      cbn [contains]; rewrite <- E, starts_with_append; reflexivity.
  - rewrite append_cons. cbn [contains]. rewrite IH. apply orb_true_r.
Qed.

Lemma find_first {A} (f : A -> bool) before x after :
  (forall y, In y before -> f y = false) -> f x = true ->
  List.find f (before ++ x :: after)%list = Some x.
Proof.
  intros Hb Hx. induction before as [|y rest IH]; cbn [app List.find].
  - now rewrite Hx.
  - rewrite (Hb y) by now left. apply IH. intros z Hz. apply Hb. now right.
Qed.

(** X18: [classify_color] answers [unknown] on a missing colour, and
    otherwise one of the twelve names of [colors] or [unknown]; it does
    not depend on the case of the text. *)
Theorem classify_color_values (color : string) :
  classify_color None = "unknown"
  /\ In (classify_color (Some color)) (map fst colors ++ ["unknown"])
  /\ classify_color (Some (lower color)) = classify_color (Some color).
Proof.
  split; [reflexivity|]. split.
  - unfold classify_color. destruct (List.find _ colors) as [entry|] eqn:E.
    + apply in_or_app. left. apply in_map. now apply find_some in E.
    + apply in_or_app. right. now left.
  - unfold classify_color. now rewrite lower_idempotent.
Qed.

(** X19: the name returned is that of the first entry of [colors], in the
    order of the literal, one of whose shades occurs in the lower-cased
    text; [unknown] is returned exactly when no shade of any entry
    occurs. *)
Theorem classify_color_first_entry (color : string) :
  (forall before entry after,
      colors = (before ++ entry :: after)%list ->
      has_shade (lower color) entry = true ->
      (forall e, In e before -> has_shade (lower color) e = false) ->
      classify_color (Some color) = entry.1)
  /\ (classify_color (Some color) = "unknown"
      <-> forall e, In e colors -> has_shade (lower color) e = false).
Proof.
  split.
  - intros before entry after Hsplit Hentry Hbefore. unfold classify_color.
    rewrite Hsplit. now rewrite find_first.
  - unfold classify_color. split.
    + destruct (List.find _ colors) as [entry|] eqn:E.
      * apply find_some in E as [Hin _]. intros Hname. exfalso.
        revert Hin Hname. unfold colors. cbn [In].
        intuition (subst; discriminate).
      * intros _ e He. now apply (find_none _ _ E).
    + intros Hnone. destruct (List.find _ colors) as [entry|] eqn:E;
        [|reflexivity].
      apply find_some in E as [Hin Hs]. rewrite (Hnone _ Hin) in Hs.
      discriminate.
Qed.

Lemma classify_color_first_entry_witness :
  classify_color (Some "Rose Gold") = "yellow".
Proof.
  apply (proj1 (classify_color_first_entry "Rose Gold")
           (firstn 3 colors) ("yellow", ["yellow"; "gold"; "lemon"; "chartreuse"])
           (skipn 4 colors)).
  - reflexivity.
  - reflexivity.
  - intros e [<-|[<-|[<-|[]]]]; reflexivity.
Defined.

(** X20: shades are looked for as substrings, not as words: a text in
    which a shade of the first entry occurs anywhere, be it within a
    word as in [Coloured], is [red] whatever else it says. *)
Theorem classify_color_substring (pre shade post : string) :
  In shade ["red"; "ruby"; "crimson"; "candy apple"] ->
  classify_color (Some (pre ++ shade ++ post)) = "red".
Proof.
  intros Hshade. unfold classify_color.
  assert (Hl : lower shade = shade)
    by (cbn [In] in Hshade; intuition (subst; reflexivity)).
  rewrite !lower_append, Hl. unfold colors. cbn [List.find].
  replace (has_shade _ _) with true; [reflexivity|].
  symmetry. unfold has_shade. cbn [snd]. apply existsb_exists.
  exists shade. split; [exact Hshade | apply contains_append].
Qed.

Lemma classify_color_substring_witness :
  classify_color (Some "Coloured Blue") = "red".
Proof.
  apply (classify_color_substring "Colou" "red" " Blue"). now left.
Defined.

(** ** Subcategory Tagger *)

Lemma subcategory_step_assigned name description s rule :
  subcategory_step name description (Some s) rule = Some s.
Proof.
  unfold subcategory_step. cbn [is_null].
  now destruct (or3 _ _) as [[]|].
Qed.

Lemma subcategory_loop_assigned name description s rules :
  fold_left (subcategory_step name description) rules (Some s) = Some s.
Proof.
  induction rules as [|rule rest IH]; cbn [fold_left]; [reflexivity|].
  now rewrite subcategory_step_assigned.
Qed.

Lemma subcategory_step_unassigned name description rule :
  subcategory_step name description None rule
  = if rlike_null rule.1 name || rlike_null rule.1 description
    then Some rule.2 else None.
Proof.
  unfold subcategory_step, rlike_null. cbn [is_null].
  destruct name as [n|], description as [d|]; cbn [option_map];
    repeat match goal with |- context [rlike ?p ?s] => destruct (rlike p s) end;
    reflexivity.
Qed.

Lemma subcategory_loop_first_match name description rules :
  fold_left (subcategory_step name description) rules None
  = first_match_either rules name description.
Proof.
  unfold first_match_either.
  induction rules as [|rule rest IH]; cbn [fold_left List.find]; [reflexivity|].
  rewrite subcategory_step_unassigned.
  destruct (rlike_null rule.1 name || rlike_null rule.1 description);
    [apply subcategory_loop_assigned | exact IH].
Qed.

(** X21: a row that has a subcategory keeps it; a row without one gets the
    label of the first rule whose pattern matches the product name or the
    description, a NULL column matching nothing and not hiding a match of
    the other one, and stays without subcategory when no rule matches:
    there is no catch-all. *)
Theorem assign_subcategories_first_match
    (name description subcategory0 : option string) :
  assign_subcategories_col name description subcategory0
  = match subcategory0 with
    | Some s => Some s
    | None => first_match_either subcategory_patterns name description
    end
  /\ assign_subcategories_col None None None = None
  /\ ((forall rule, In rule subcategory_patterns ->
         rlike_null rule.1 name = false /\ rlike_null rule.1 description = false) ->
      assign_subcategories_col name description None = None).
Proof.
  unfold assign_subcategories_col. split; [|split].
  - destruct subcategory0 as [s|];
      [apply subcategory_loop_assigned | apply subcategory_loop_first_match].
  - reflexivity.
  - intros Hnone. rewrite subcategory_loop_first_match. unfold first_match_either.
    destruct (List.find _ subcategory_patterns) as [rule|] eqn:E; [|reflexivity].
    apply find_some in E as [Hin Hm]. destruct (Hnone rule Hin) as [H1 H2].
    rewrite H1, H2 in Hm. discriminate.
Qed.

Lemma assign_subcategories_first_match_witness :
  assign_subcategories_col (Some "Plunge Bra") None None = None
  /\ assign_subcategories_col None (Some "soft cotton with lace") None = Some "Lace".
Proof.
  split.
  - apply (assign_subcategories_first_match (Some "Plunge Bra") None None).
    intros rule Hin. split; [|reflexivity].
    unfold subcategory_patterns in Hin. cbn [In] in Hin.
    repeat (destruct Hin as [<-|Hin]; [reflexivity|]). contradiction.
  - reflexivity.
Defined.

(** ** Review counts *)

Lemma round_half_even_integer x k : (x == inject_Z k)%Q -> round_half_even x = k.
Proof.
  intros H.
  assert (Hf : Qfloor x = k)
    by (rewrite (Qfloor_comp x (inject_Z k) H); apply Qfloor_Z).
  unfold round_half_even. rewrite Hf.
  destruct (Qcompare_spec (x - inject_Z k) (1 # 2)) as [E|E|E];
    [exfalso; lra | reflexivity | exfalso; lra].
Qed.

(** An integer of less than 24 bits is a float. *)
Lemma to_float_integer n : 1 <= n < 2 ^ 24 -> to_float (inject_Z n) = inject_Z n.
Proof.
  intros Hn. unfold to_float, round_binary.
  assert (Hpos : (0 < inject_Z n)%Q) by (rewrite <- (Zlt_Qlt 0); lia).
  assert (E : Qcompare (inject_Z n) 0 = Gt) by now apply Qgt_alt.
  rewrite E.
  rewrite <- (Qcanon.Qred_identity (inject_Z n)) at 2 by apply Z.gcd_1_r.
  apply Qred_complete.
  unfold round_binary_pos, Qlog2.
  assert (Hb : Qle_bool 1 (inject_Z n) = true).
  { apply Qle_bool_iff. rewrite <- (Zle_Qle 1). lia. }
  rewrite Hb, Qfloor_Z.
  assert (He : 0 <= Z.log2 n < 24).
  { split; [apply Z.log2_nonneg|]. apply Z.log2_lt_pow2; lia. }
  unfold pow2. destruct (0 <=? Z.log2 n - (24 - 1)) eqn:Es.
  - apply Z.leb_le in Es. replace (Z.log2 n - (24 - 1)) with 0 by lia.
    change (inject_Z (2 ^ 0)) with 1%Q.
    rewrite (round_half_even_integer _ n) by field. ring.
  - set (N := 2 ^ (- (Z.log2 n - (24 - 1)))).
    assert (HN : 0 < N) by (apply Z.pow_pos_nonneg; lia).
    assert (HNq : ~ (inject_Z N == 0)%Q).
    { intros H. apply (inject_Z_injective N 0) in H. lia. }
    rewrite (round_half_even_integer _ (n * N)).
    + rewrite inject_Z_mult. field. exact HNq.
    + rewrite inject_Z_mult. field. exact HNq.
Qed.

(** X22: a NULL review count stays NULL, a count above 1e6 becomes NULL,
    and a whole count from 0 to 1000000 is kept exactly by the cast to
    float. *)
Theorem review_count_values (n : Z) (v : Q) :
  normalize_review_count_col None = None
  /\ ((max_valid_value < v)%Q -> normalize_review_count_col (Some v) = None)
  /\ (0 <= n <= 1000000 ->
      normalize_review_count_col (Some (inject_Z n)) = Some (inject_Z n)).
Proof.
  split; [reflexivity|]. split.
  - intros Hv. unfold normalize_review_count_col. cbn [option_map case_when].
    replace (Qle_bool v max_valid_value) with false; [reflexivity|].
    symmetry. apply not_true_iff_false. intros H%Qle_bool_iff. lra.
  - intros Hn. unfold normalize_review_count_col. cbn [option_map case_when].
    replace (Qle_bool (inject_Z n) max_valid_value) with true.
    2:{ symmetry. apply Qle_bool_iff. unfold max_valid_value.
        change (1000000%Q) with (inject_Z 1000000). rewrite <- Zle_Qle. lia. }
    cbn [negb option_map]. f_equal.
    destruct (Z.eq_dec n 0) as [->|Hne]; [reflexivity|].
    apply to_float_integer. lia.
Qed.

Lemma review_count_values_witness :
  normalize_review_count_col (Some (inject_Z 1000001)) = None
  /\ normalize_review_count_col (Some (inject_Z 1000000)) = Some (inject_Z 1000000).
Proof.
  split.
  - apply (review_count_values 0 (inject_Z 1000001)). reflexivity.
  - apply (review_count_values 1000000 0). lia.
Defined.

(** ** Words of the category rules that never decide *)

Lemma match_literal_append a b prev s :
  match_literal (a ++ b) prev s
  = match match_literal a prev s with
    | Some (p, r) => match_literal b p r
    | None => None
    end.
Proof.
  revert prev s. induction a as [|c a' IH]; intros prev s; [reflexivity|].
  rewrite append_cons. cbn [match_literal].
  destruct s as [|d s']; [reflexivity|]. destruct (eqb_ci c d); [apply IH|reflexivity].
Qed.

Lemma find_words_here alts prev s :
  match_words_at alts prev s = true -> find_words alts prev s = true.
Proof. intros H. destruct s; cbn [find_words]; now rewrite H. Qed.

Lemma find_words_later alts lit prev s p r :
  match_literal lit prev s = Some (p, r) ->
  find_words alts p r = true -> find_words alts prev s = true.
Proof.
  revert prev s. induction lit as [|c lit' IH]; intros prev s.
  - cbn [match_literal]. intros H. injection H as -> ->. auto.
  - cbn [match_literal]. destruct s as [|d s']; [discriminate|].
    destruct (eqb_ci c d); [|discriminate]. intros H Hf.
    cbn [find_words]. rewrite (IH _ _ H Hf). apply orb_true_r.
Qed.

Lemma match_literal_last lit prev s p r :
  match_literal lit prev s = Some (p, r) ->
  match last_char lit with
  | Some l => exists c, p = Some c /\ eqb_ci l c = true
  | None => p = prev
  end.
Proof.
  revert prev s. induction lit as [|c lit' IH]; intros prev s.
  - cbn. intros H. now injection H as -> ->.
  - cbn [match_literal]. destruct s as [|d s']; [discriminate|].
    destruct (eqb_ci c d) eqn:E; [|discriminate]. intros H.
    specialize (IH _ _ H). cbn [last_char].
    destruct lit' as [|c' lit''].
    + cbn in H. injection H as <- <-. eauto.
    + destruct (last_char (String c' lit'')) eqn:El; [exact IH|].
      exfalso. revert El. clear. revert c'.
      induction lit'' as [|x y IHy]; intros c'; [discriminate|].
      cbn [last_char]. apply IHy.
Qed.

Lemma space_ci c : eqb_ci " " c = true -> is_word_char c = false.
Proof. by_cases_on_char c. Qed.

Lemma letter_b_ci c : eqb_ci "b" c = true -> is_word_char c = true.
Proof. by_cases_on_char c. Qed.

(** Where [triangle bralette] stands as a word, so does [bralette]. *)
Lemma triangle_bralette_at prev s :
  match_words_at ["triangle bralette"] prev s = true ->
  find_words ["bralette"] prev s = true.
Proof.
  unfold match_words_at. intros [_ Hex]%andb_true_iff.
  cbn [existsb] in Hex. rewrite orb_false_r in Hex.
  unfold match_alternative in Hex.
  change "triangle bralette" with ("triangle " ++ "bralette") in Hex.
  rewrite match_literal_append in Hex.
  destruct (match_literal "triangle " prev s) as [[p r]|] eqn:E1; [|discriminate].
  destruct (match_literal "bralette" p r) as [[p' r']|] eqn:E2; [|discriminate].
  apply (find_words_later _ _ _ _ _ _ E1). apply find_words_here.
  unfold match_words_at. apply andb_true_iff. split.
  - apply match_literal_last in E1. cbn [last_char] in E1.
    destruct E1 as (c & -> & Hc).
    destruct r as [|d r'']; [discriminate|].
    cbn [match_literal] in E2. destruct (eqb_ci "b" d) eqn:Eb; [|discriminate].
    unfold boundary. cbn [word_before word_at].
    now rewrite (space_ci c Hc), (letter_b_ci d Eb).
  - cbn [existsb]. unfold match_alternative. now rewrite E2, Hex.
Qed.

Lemma triangle_bralette_found prev s :
  find_words ["triangle bralette"] prev s = true ->
  find_words ["bralette"] prev s = true.
Proof.
  revert prev. induction s as [|c r IH]; intros prev H.
  - apply triangle_bralette_at. cbn [find_words] in H.
    now rewrite orb_false_r in H.
  - cbn [find_words] in H. apply orb_true_iff in H as [H|H].
    + now apply triangle_bralette_at.
    + cbn [find_words]. rewrite (IH _ H). apply orb_true_r.
Qed.

Lemma find_words_alternative alts prev s :
  find_words alts prev s = true ->
  exists alt, In alt alts /\ find_words [alt] prev s = true.
Proof.
  assert (Hat : forall prev s,
             match_words_at alts prev s = true ->
             exists alt, In alt alts /\ match_words_at [alt] prev s = true).
  { intros p t [Hb Hex]%andb_true_iff.
    apply existsb_exists in Hex as (alt & Hin & Halt). exists alt.
    split; [exact Hin|]. unfold match_words_at. cbn [existsb].
    now rewrite Hb, Halt. }
  revert prev. induction s as [|c r IH]; intros prev H.
  - cbn [find_words] in H. rewrite orb_false_r in H.
    apply Hat in H as (alt & Hin & H). exists alt.
    split; [exact Hin | now apply find_words_here].
  - cbn [find_words] in H. apply orb_true_iff in H as [H|H].
    + apply Hat in H as (alt & Hin & H). exists alt.
      split; [exact Hin | now apply find_words_here].
    + apply IH in H as (alt & Hin & H). exists alt. split; [exact Hin|].
      cbn [find_words]. rewrite H. apply orb_true_r.
Qed.

(** X23: of the three words of the [Tops] rule only [bandeau] ever
    decides: a name with the word [bralette], alone or after [triangle],
    is taken by the [Bras] rule before it, so every product whose
    category is [Tops] has the word [bandeau] in its name. *)
Theorem tops_means_bandeau (name : string) :
  assign_category_col (Some name) None = Some "Tops" ->
  contains_word "bandeau" name = true.
Proof.
  unfold assign_category_col. rewrite assign_loop_first_match.
  unfold first_match, category_patterns, contains_word.
  cbn [List.find fst snd rlike].
  destruct (find_words _ None name) eqn:Ebras; [discriminate|].
  destruct (find_words ["bandeau"; "triangle bralette"; "bralette"] None name)
    eqn:Etops.
  - intros _. apply find_words_alternative in Etops as (alt & Hin & Halt).
    assert (Hno : find_words ["bralette"] None name = false).
    { apply not_true_iff_false. intros H. apply not_true_iff_false in Ebras.
      apply Ebras. eapply find_words_incl; [|exact H].
      intros w [<-|[]]. cbn [In]. tauto. }
    destruct Hin as [<-|[<-|[<-|[]]]]; [exact Halt | |congruence].
    apply triangle_bralette_found in Halt. congruence.
  - repeat match goal with |- context [if ?b then _ else _] => destruct b end;
      discriminate.
Qed.

Lemma tops_means_bandeau_witness :
  assign_category_col (Some "Lace Bandeau") None = Some "Tops"
  /\ contains_word "bandeau" "Lace Bandeau" = true.
Proof.
  split; [reflexivity|].
  apply (tops_means_bandeau "Lace Bandeau"). reflexivity.
Defined.
